(** * Verification of the markup segmenter and inline formatter
    of [utils/docx_generator.py] (class [DocxGenerator]).

    Python [str] values are sequences of Unicode code points; they are
    modelled as lists of code points ([N]).  The python-docx document that
    the generator builds is modelled in two layers.  The [_add_*] methods
    and the scan record the calls the generator makes on python-docx, in
    order, with the text and the attributes it hands over: every method
    takes the document body and returns the extended body.  What
    python-docx does with that text, refusing some characters and storing
    line ends as breaks, comes on top of it in [Module Docx]. *)

From Stdlib Require Import String Ascii.
From stdpp Require Import base list numbers.

Local Open Scope N_scope.
Local Open Scope list_scope.

(** ** Strings *)

Abbreviation char := N (only parsing).
Abbreviation str := (list N) (only parsing).

(** ASCII literals of the source, as code-point lists. *)
Definition lit (s : string) : str := N_of_ascii <$> list_ascii_of_string s.

Definition LF : char := 10.
Definition STAR : char := 42.
Definition DOLLAR : char := 36.
Definition PIPE : char := 124.
Definition RBRACKET : char := 93.
Definition DOT : char := 46.
Definition COLON : char := 58.
Definition DASH : char := 45.

Definition in_range (c : char) (r : N * N) : bool :=
  (fst r <=? c) && (c <=? snd r).

(** [str.isspace] on one code point; the class [\s] of [re] on [str]
    patterns is the same set. *)
Definition whitespace_ranges : list (N * N) :=
  [ (0x9, 0xd); (0x1c, 0x20); (0x85, 0x85); (0xa0, 0xa0); (0x1680, 0x1680);
    (0x2000, 0x200a); (0x2028, 0x2029); (0x202f, 0x202f); (0x205f, 0x205f);
    (0x3000, 0x3000) ].

Definition isspace (c : char) : bool := existsb (in_range c) whitespace_ranges.

(** The class [\d] of [re] on [str] patterns: the decimal digits of every
    script (Unicode category Nd, as in the interpreter's character
    database). *)
Definition decimal_ranges : list (N * N) :=
  [ (0x30, 0x39); (0x660, 0x669); (0x6f0, 0x6f9); (0x7c0, 0x7c9);
    (0x966, 0x96f); (0x9e6, 0x9ef); (0xa66, 0xa6f); (0xae6, 0xaef);
    (0xb66, 0xb6f); (0xbe6, 0xbef); (0xc66, 0xc6f); (0xce6, 0xcef);
    (0xd66, 0xd6f); (0xde6, 0xdef); (0xe50, 0xe59); (0xed0, 0xed9);
    (0xf20, 0xf29); (0x1040, 0x1049); (0x1090, 0x1099); (0x17e0, 0x17e9);
    (0x1810, 0x1819); (0x1946, 0x194f); (0x19d0, 0x19d9); (0x1a80, 0x1a89);
    (0x1a90, 0x1a99); (0x1b50, 0x1b59); (0x1bb0, 0x1bb9); (0x1c40, 0x1c49);
    (0x1c50, 0x1c59); (0xa620, 0xa629); (0xa8d0, 0xa8d9); (0xa900, 0xa909);
    (0xa9d0, 0xa9d9); (0xa9f0, 0xa9f9); (0xaa50, 0xaa59); (0xabf0, 0xabf9);
    (0xff10, 0xff19); (0x104a0, 0x104a9); (0x10d30, 0x10d39);
    (0x11066, 0x1106f); (0x110f0, 0x110f9); (0x11136, 0x1113f);
    (0x111d0, 0x111d9); (0x112f0, 0x112f9); (0x11450, 0x11459);
    (0x114d0, 0x114d9); (0x11650, 0x11659); (0x116c0, 0x116c9);
    (0x11730, 0x11739); (0x118e0, 0x118e9); (0x11950, 0x11959);
    (0x11c50, 0x11c59); (0x11d50, 0x11d59); (0x11da0, 0x11da9);
    (0x16a60, 0x16a69); (0x16ac0, 0x16ac9); (0x16b50, 0x16b59);
    (0x1d7ce, 0x1d7ff); (0x1e140, 0x1e149); (0x1e2f0, 0x1e2f9);
    (0x1e950, 0x1e959); (0x1fbf0, 0x1fbf9) ].

Definition isdecimal (c : char) : bool := existsb (in_range c) decimal_ranges.

Fixpoint take_while {A} (p : A -> bool) (s : list A) : list A :=
  match s with
  | c :: s' => if p c then c :: take_while p s' else []
  | [] => []
  end.

Fixpoint drop_while {A} (p : A -> bool) (s : list A) : list A :=
  match s with
  | c :: s' => if p c then drop_while p s' else s
  | [] => []
  end.

(** [s.strip()] *)
Definition lstrip (s : str) : str := drop_while isspace s.
Definition rstrip (s : str) : str := reverse (drop_while isspace (reverse s)).
Definition strip (s : str) : str := rstrip (lstrip s).

(** [s.split(sep)] for a one-character separator: never the empty list. *)
Fixpoint split (sep : char) (s : str) : list str :=
  match s with
  | [] => [[]]
  | c :: s' =>
      if c =? sep then [] :: split sep s'
      else match split sep s' with
           | field :: fields => (c :: field) :: fields
           | [] => [[c]]
           end
  end.

(** [s.startswith(prefix)] *)
Fixpoint startswith (prefix s : str) : bool :=
  match prefix, s with
  | [], _ => true
  | p :: prefix', c :: s' => (p =? c) && startswith prefix' s'
  | _ :: _, [] => false
  end.

(** [s.endswith(suffix)] *)
Definition endswith (suffix s : str) : bool :=
  startswith (reverse suffix) (reverse s).

(** [sub in s] *)
Fixpoint contains (sub s : str) : bool :=
  startswith sub s ||
  match s with
  | _ :: s' => contains sub s'
  | [] => false
  end.

(** [s.count(c)] for a one-character argument *)
Definition count (c : char) (s : str) : nat := length (filter (λ x, x = c) s).

(** [s[a:-b]] for [0 <= a], [0 < b] *)
Definition slice_inner (a b : nat) (s : str) : str :=
  take (length s - b - a) (drop a s).

(** A non-empty [str] is truthy. *)
Definition truthy {A} (l : list A) : bool :=
  match l with [] => false | _ :: _ => true end.

(** ** The document under construction *)

(** A run of a python-docx paragraph as the generator asks for it: the
    text handed to [add_run] and the font attributes set on the run.
    Lengths are in EMU as in [docx.shared]. *)
Record Run := mkRun {
  text : str;
  bold : bool;
  italic : bool;
  color : option (N * N * N);
  size : option N
}.

Definition Pt (n : N) : N := n * 12700.
Definition Inches_half : N := 457200.

(** The call [paragraph.add_run(t)] as the generator issues it: the run
    asked for, with the text as it is handed over.  python-docx raises
    [ValueError] on some characters and stores a carriage return as a line
    break: that is [carry_out] and [read_back] below, and the methods as
    they run on python-docx are in [Module Docx]. *)
Definition add_run (t : str) : Run :=
  {| text := t; bold := false; italic := false; color := None; size := None |}.

Inductive para_style :=
| Normal
| ListBullet
| ListNumber.

Inductive WD_ALIGN_PARAGRAPH := CENTER.

Record paragraph := mkParagraph {
  style : para_style;
  alignment : option WD_ALIGN_PARAGRAPH;
  left_indent : option N;
  right_indent : option N;
  runs : list Run
}.

(** [document.add_paragraph(style=...)] *)
Definition add_paragraph (st : para_style) : paragraph :=
  {| style := st; alignment := None; left_indent := None;
     right_indent := None; runs := [] |}.

Definition with_runs (p : paragraph) (rs : list Run) : paragraph :=
  {| style := style p; alignment := alignment p; left_indent := left_indent p;
     right_indent := right_indent p; runs := rs |}.

(** A table of python-docx: [cols] columns, every cell holding the runs of
    its first paragraph. *)
Record table := mkTable {
  cols : nat;
  cells : list (list (list Run))
}.

(** The body elements the generator adds: [document.add_heading(text,
    level)], a paragraph, a table. *)
Inductive Block :=
| Heading (t : str) (level : Z) (align : option WD_ALIGN_PARAGRAPH)
| Para (p : paragraph)
| Tbl (t : table).

Abbreviation document := (list Block) (only parsing).

(** ** Inline formatting: [_add_formatted_text] *)

(** [.*?] followed by the literal [delim]: the shortest stretch of
    characters other than a line feed after which [delim] stands.  The
    result is the stretch and what follows the delimiter. *)
Fixpoint lazy_until (delim : str) (s : str) : option (str * str) :=
  if startswith delim s then Some ([], drop (length delim) s)
  else match s with
       | c :: s' =>
           if c =? LF then None
           else match lazy_until delim s' with
                | Some (inner, rest) => Some (c :: inner, rest)
                | None => None
                end
       | [] => None
       end.

(** [\*\*.*?\*\*] anchored at the head of [s]: the matched text. *)
Definition match_bold (s : str) : option str :=
  match s with
  | 42 :: 42 :: s' =>
      match lazy_until [STAR; STAR] s' with
      | Some (inner, _) => Some ([STAR; STAR] ++ inner ++ [STAR; STAR])
      | None => None
      end
  | _ => None
  end.

(** [\*[^*]+\*] anchored at the head of [s]. *)
Definition match_italic (s : str) : option str :=
  match s with
  | 42 :: s' =>
      let inner := take_while (λ c, negb (c =? STAR)) s' in
      match inner, drop (length inner) s' with
      | _ :: _, 42 :: _ => Some ([STAR] ++ inner ++ [STAR])
      | _, _ => None
      end
  | _ => None
  end.

(** [\$.*?\$] anchored at the head of [s]. *)
Definition match_formula (s : str) : option str :=
  match s with
  | 36 :: s' =>
      match lazy_until [DOLLAR] s' with
      | Some (inner, _) => Some ([DOLLAR] ++ inner ++ [DOLLAR])
      | None => None
      end
  | _ => None
  end.

(** The pattern [(\*\*.*?\*\*|\*[^*]+\*|\$.*?\$)] anchored at the head of
    [s]: the alternatives are tried in order. *)
Definition match_pattern (s : str) : option str :=
  match match_bold s with
  | Some m => Some m
  | None =>
      match match_italic s with
      | Some m => Some m
      | None => match_formula s
      end
  end.

(** [re.split(pattern, text)] with the one capturing group: the text before
    each match, then the match, and the text after the last match.
    [pending] is the text since the last match and [skip] counts the
    characters of the current match still to pass over. *)
Fixpoint re_split_from (pending : str) (skip : nat) (s : str) : list str :=
  match s with
  | [] => [pending]
  | c :: s' =>
      match skip with
      | S skip' => re_split_from pending skip' s'
      | O =>
          match match_pattern s with
          | Some m => pending :: m :: re_split_from [] (length m - 1) s'
          | None => re_split_from (pending ++ [c]) 0 s'
          end
      end
  end.

Definition re_split (text : str) : list str := re_split_from [] 0 text.

Definition PURPLE : N * N * N := (139, 92, 246).

(** The body of the [for part in parts] loop: the run added for one part,
    if any. *)
Definition format_part (part : str) : option Run :=
  if negb (truthy part) then None
  else if startswith (lit "**") part && endswith (lit "**") part then
    Some {| text := slice_inner 2 2 part; bold := true; italic := false;
            color := None; size := None |}
  else if startswith (lit "*") part && endswith (lit "*") part
          && negb (startswith (lit "**") part) then
    Some {| text := slice_inner 1 1 part; bold := false; italic := true;
            color := None; size := None |}
  else if startswith (lit "$") part && endswith (lit "$") part then
    Some {| text := slice_inner 1 1 part; bold := false; italic := true;
            color := Some PURPLE; size := None |}
  else Some (add_run part).

Definition _add_formatted_text (p : paragraph) (t : str) : paragraph :=
  with_runs p (runs p ++ omap format_part (re_split t)).

(** The runs the formatter makes of a fragment, and their concatenated
    text. *)
Definition format (fragment : str) : list Run :=
  runs (_add_formatted_text (add_paragraph Normal) fragment).

Definition runs_text (rs : list Run) : str := concat (text <$> rs).

(** ** Exceptions *)

Inductive exn := ValueError | IndexError | AttributeError.

Inductive result (A : Type) :=
| Ok (a : A)
| Raise (e : exn).
Arguments Ok {A} a.
Arguments Raise {A} e.

Definition bind {A B} (r : result A) (k : A -> result B) : result B :=
  match r with
  | Ok a => k a
  | Raise e => Raise e
  end.

Notation "'do' x <- r ; k" := (bind r (fun x => k))
  (at level 10, x name, r at level 100, k at level 200).

(** [max(iterable)]: [ValueError] on an empty iterable. *)
Definition py_max (l : list nat) : result nat :=
  match l with
  | [] => Raise ValueError
  | n :: l' => Ok (foldl Nat.max n l')
  end.

(** ** The [_add_*] methods *)

(** The call [self.document.add_heading(text, level=level)] as the
    generator issues it, with the text as it is handed over; what
    python-docx does with the text is [carry_out], as for [add_run]. *)
Definition _add_heading (t : str) (level : Z) (doc : document) : document :=
  doc ++ [Heading t level None].

Definition _add_paragraph (t : str) (doc : document) : document :=
  doc ++ [Para (_add_formatted_text (add_paragraph Normal) t)].

Inductive list_type := bullet | numbered.

Definition list_style (lt : option list_type) : para_style :=
  match lt with
  | Some numbered => ListNumber
  | _ => ListBullet
  end.

Fixpoint _add_list (items : list str) (lt : option list_type) (doc : document)
  : document :=
  match items with
  | [] => doc
  | item :: items' =>
      _add_list items' lt
        (doc ++ [Para (_add_formatted_text (add_paragraph (list_style lt)) item)])
  end.

Definition INDIGO : N * N * N := (99, 102, 241).
Definition EMERALD : N * N * N := (16, 185, 129).

(** The literals of the source file that are not ASCII, code point by code
    point as the file has them. *)
Definition BULLET_GLYPH_SPACE : str := [0xe2; 0x20ac; 0xa2; 0x20].
Definition QUOTE_BAR_SPACE : str := [0xe2; 0x201d; 0x201a; 0x20].
Definition DIAGRAM_LABEL : str := [0xf0; 0x178; 0x201c; 0x160] ++ lit " DIAGRAM".
Definition RULE : str := [0xe2; 0x201d; 0x20ac].

Definition _add_blockquote (t : str) (doc : document) : document :=
  let p := {| style := Normal; alignment := None;
              left_indent := Some Inches_half; right_indent := None;
              runs := [ {| text := QUOTE_BAR_SPACE; bold := true; italic := false;
                           color := Some INDIGO; size := None |} ] |} in
  doc ++ [Para (_add_formatted_text p t)].

Definition _add_diagram_placeholder (description : str) (doc : document)
  : document :=
  doc ++
  [ Para {| style := Normal; alignment := Some CENTER;
            left_indent := None; right_indent := None;
            runs := [ {| text := DIAGRAM_LABEL; bold := true; italic := false;
                         color := Some EMERALD; size := None |} ] |};
    Para {| style := Normal; alignment := Some CENTER;
            left_indent := Some Inches_half; right_indent := Some Inches_half;
            runs := [ {| text := description; bold := false; italic := true;
                         color := Some (100, 100, 100); size := Some (Pt 10) |} ] |} ].

(** *** Tables *)

(** [re.match(r'^[\s|:-]+$', line)] *)
Definition separator_char (c : char) : bool :=
  isspace c || (c =? PIPE) || (c =? COLON) || (c =? DASH).

Definition re_match_separator (line : str) : bool :=
  truthy line && forallb separator_char line.

(** [[cell.strip() for cell in line.split('|') if cell.strip()]] *)
Definition row_cells (line : str) : list str :=
  strip <$> filter (λ cell, truthy (strip cell) = true) (split PIPE line).

(** The [for line in table_lines] loop that builds [rows]. *)
Fixpoint parse_rows (table_lines : list str) : list (list str) :=
  match table_lines with
  | [] => []
  | line :: table_lines' =>
      if re_match_separator line then parse_rows table_lines'
      else
        let cells := row_cells line in
        if truthy cells then cells :: parse_rows table_lines'
        else parse_rows table_lines'
  end.

(** [document.add_table(rows, cols)]: a grid of empty cells. *)
Definition add_table (nrows ncols : nat) : table :=
  {| cols := ncols; cells := replicate nrows (replicate ncols []) |}.

(** [table.rows[i].cells[j].paragraphs[0].add_run(t)], with the run's
    [bold] attribute; both indexings raise [IndexError] out of range. *)
Definition cell_add_run (t : table) (i j : nat) (r : Run) : result table :=
  match cells t !! i with
  | None => Raise IndexError
  | Some row =>
      match row !! j with
      | None => Raise IndexError
      | Some c => Ok {| cols := cols t;
                        cells := <[i := <[j := c ++ [r]]> row]> (cells t) |}
      end
  end.

(** [for j, cell_text in enumerate(row)] *)
Fixpoint fill_row (num_cols i j : nat) (row : list str) (t : table)
  : result table :=
  match row with
  | [] => Ok t
  | cell_text :: row' =>
      do t' <- (if (j <? num_cols)%nat then
                  cell_add_run t i j
                    {| text := cell_text; bold := (i =? 0)%nat; italic := false;
                       color := None; size := None |}
                else Ok t);
      fill_row num_cols i (S j) row' t'
  end.

(** [for i, row in enumerate(rows)] *)
Fixpoint fill_rows (num_cols i : nat) (rows : list (list str)) (t : table)
  : result table :=
  match rows with
  | [] => Ok t
  | row :: rows' =>
      do t' <- fill_row num_cols i 0 row t;
      fill_rows num_cols (S i) rows' t'
  end.

Definition _add_table_from_markdown (table_lines : list str) (doc : document)
  : result document :=
  if negb (truthy table_lines) then Ok doc
  else
    let rows := parse_rows table_lines in
    if negb (truthy rows) then Ok doc
    else
      do num_cols <- py_max (length <$> rows);
      do t <- fill_rows num_cols 0 rows (add_table (length rows) num_cols);
      Ok (doc ++ [Tbl t; Para (add_paragraph Normal)]).

(** ** Line classification and the scan: [_process_content] *)

(** [^\d+\.\s] anchored at the head of the line: what follows the match. *)
Definition numbered_rest (line : str) : option str :=
  match take_while isdecimal line, drop_while isdecimal line with
  | _ :: _, 46 :: w :: rest => if isspace w then Some rest else None
  | _, _ => None
  end.

(** [re.match(r'^\d+\.\s', line)] *)
Definition re_match_numbered (line : str) : bool :=
  match numbered_rest line with Some _ => true | None => false end.

(** [re.sub(r'^\d+\.\s', '', line)] *)
Definition re_sub_numbered (line : str) : str :=
  match numbered_rest line with Some rest => rest | None => line end.

(** [\[DIAGRAM:\s*(.*?)\]] anchored at the head of [s]: group 1. *)
Definition match_diagram (s : str) : option str :=
  if startswith (lit "[DIAGRAM:") s then
    let after := drop_while isspace (drop 9 s) in
    let group1 :=
      take_while (λ c, negb (c =? RBRACKET) && negb (c =? LF)) after in
    match drop (length group1) after with
    | 93 :: _ => Some group1
    | _ => None
    end
  else None.

(** [re.search(r'\[DIAGRAM:\s*(.*?)\]', line)]: group 1 of the leftmost
    match, [None] when there is none. *)
Fixpoint re_search_diagram (s : str) : option str :=
  match match_diagram s with
  | Some g => Some g
  | None =>
      match s with
      | _ :: s' => re_search_diagram s'
      | [] => None
      end
  end.

(** The local variables of [_process_content] next to the document. *)
Record locals := mkLocals {
  current_list_type : option list_type;
  list_items : list str
}.

Definition no_list : locals :=
  {| current_list_type := None; list_items := [] |}.

(** The recurring block
    [if list_items: self._add_list(list_items, current_list_type);
     list_items = []; current_list_type = None]:
    its effect on the document and on the two locals. *)
Definition flush_list (l : locals) (doc : document) : document :=
  if truthy (list_items l) then _add_list (list_items l) (current_list_type l) doc
  else doc.

Definition flush_locals (l : locals) : locals :=
  if truthy (list_items l) then no_list else l.

Definition append_item (lt : list_type) (item : str) (l : locals) : locals :=
  {| current_list_type := Some lt; list_items := list_items l ++ [item] |}.

Definition has_pipe (line : str) : bool := contains [PIPE] line.

(** The [while i < len(lines)] loop, on the lines from index [i] on, and
    the [if list_items] after it.  The inner [while j < len(lines) and '|'
    in lines[j]] loop is [collect]; the scan goes on at the line that
    stopped it. *)
Fixpoint scan_lines (lines : list str) (l : locals) (doc : document)
  {struct lines} : result document :=
  match lines with
  | [] => Ok (flush_list l doc)
  | raw :: rest =>
      let line := strip raw in
      if negb (truthy line) then
        scan_lines rest (flush_locals l) (flush_list l doc)
      else if startswith (lit "## ") line && negb (startswith (lit "### ") line) then
        scan_lines rest (flush_locals l)
          (_add_heading (drop 3 line) 1 (flush_list l doc))
      else if startswith (lit "### ") line then
        scan_lines rest (flush_locals l)
          (_add_heading (drop 4 line) 2 (flush_list l doc))
      else if startswith (lit "# ") line && negb (startswith (lit "## ") line) then
        scan_lines rest (flush_locals l)
          (_add_heading (drop 2 line) 0 (flush_list l doc))
      else if startswith (lit "- ") line || startswith BULLET_GLYPH_SPACE line then
        scan_lines rest (append_item bullet (drop 2 line) l) doc
      else if re_match_numbered line then
        scan_lines rest (append_item numbered (re_sub_numbered line) l) doc
      else if startswith (lit "> ") line then
        scan_lines rest (flush_locals l)
          (_add_blockquote (drop 2 line) (flush_list l doc))
      else if contains (lit "[DIAGRAM:") line then
        match re_search_diagram line with
        | Some group1 =>
            scan_lines rest (flush_locals l)
              (_add_diagram_placeholder group1 (flush_list l doc))
        | None => scan_lines rest (flush_locals l) (flush_list l doc)
        end
      else if has_pipe line && (2 <=? count PIPE line)%nat then
        (fix collect (table_lines : list str) (after : list str) {struct after}
           : result document :=
           match after with
           | next :: after' =>
               if has_pipe next then collect (table_lines ++ [strip next]) after'
               else
                 do doc' <- _add_table_from_markdown table_lines (flush_list l doc);
                 scan_lines after (flush_locals l) doc'
           | [] =>
               do doc' <- _add_table_from_markdown table_lines (flush_list l doc);
               Ok (flush_list (flush_locals l) doc')
           end) [line] rest
      else
        scan_lines rest (flush_locals l)
          (_add_paragraph line (flush_list l doc))
  end.

Definition _process_content (t : str) (doc : document) : result document :=
  scan_lines (split LF t) no_list doc.

(** ** [create_document] and [generate_docx] *)

(** The generator object: its one attribute, [self.document]. *)
Record DocxGenerator := mkGenerator {
  self_document : option (list Block)
}.

(** [DocxGenerator()] *)
Definition DocxGenerator_init : DocxGenerator := {| self_document := None |}.

Definition _add_separator (doc : document) : document :=
  doc ++
  [ Para {| style := Normal; alignment := Some CENTER;
            left_indent := None; right_indent := None;
            runs := [ {| text := concat (replicate 50 RULE); bold := false;
                         italic := false; color := Some (200, 200, 200);
                         size := Some (Pt 8) |} ] |} ].

(** ** python-docx underneath *)

(** The generator never looks at what a python-docx call returns, so
    running it on python-docx is carrying out the recorded calls in order.
    python-docx writes the text of a run or of a heading into the XML tree:
    a tab becomes a tab element, a line feed or a carriage return a break
    (read back as a line feed), every other stretch a text node, which
    lxml refuses with [ValueError] when it holds a character XML cannot
    carry: a control character other than tab, line feed and carriage
    return, a surrogate, U+FFFE or U+FFFF. *)
Definition xml_char (c : N) : bool :=
  (c =? 9) || (c =? 10) || (c =? 13)
  || ((32 <=? c) && negb ((0xd800 <=? c) && (c <=? 0xdfff))
      && negb (c =? 0xfffe) && negb (c =? 0xffff)).

Definition xml_compatible (t : str) : bool := forallb xml_char t.

(** The text of a run as python-docx gives it back. *)
Definition read_back (t : str) : str := (λ c, if c =? 13 then 10 else c) <$> t.

Definition read_back_run (r : Run) : Run :=
  {| text := read_back (text r); bold := bold r; italic := italic r;
     color := color r; size := size r |}.

Definition read_back_block (b : Block) : Block :=
  match b with
  | Heading t level align => Heading (read_back t) level align
  | Para p => Para (with_runs p (read_back_run <$> runs p))
  | Tbl t =>
      Tbl {| cols := cols t;
             cells := (λ row : list (list Run),
                         (λ cell : list Run, read_back_run <$> cell) <$> row)
                      <$> cells t |}
  end.

(** The texts handed to python-docx for one block. *)
Definition block_texts (b : Block) : list str :=
  match b with
  | Heading t _ _ => [t]
  | Para p => text <$> runs p
  | Tbl t => text <$> concat (concat (cells t))
  end.

Definition accepted (b : Block) : bool := forallb xml_compatible (block_texts b).

(** Carrying out recorded calls: [ValueError] at the first text that is
    refused, otherwise the blocks as stored. *)
Definition carry_out (requested : list Block) : result (list Block) :=
  if forallb accepted requested then Ok (read_back_block <$> requested)
  else Raise ValueError.

(** The generator on python-docx. *)
Module Docx.

(** Calls on [self.document]: while it is [None] the first of them raises
    [AttributeError]. *)
Definition on_document (self : DocxGenerator) (requested : list Block)
  : result DocxGenerator :=
  match requested with
  | [] => Ok self
  | _ :: _ =>
      match self_document self with
      | None => Raise AttributeError
      | Some doc =>
          do stored <- carry_out requested;
          Ok {| self_document := Some (doc ++ stored) |}
      end
  end.

Definition _add_formatted_text (p : paragraph) (t : str) : result paragraph :=
  if forallb xml_compatible (text <$> format t)
  then Ok (with_runs p (runs p ++ (read_back_run <$> format t)))
  else Raise ValueError.

Definition _process_content (self : DocxGenerator) (t : str)
  : result DocxGenerator :=
  do requested <- _process_content t [];
  on_document self requested.

(** [create_document]: the generator afterwards and the saved document.
    [_setup_styles] changes fonts of the style table of the new document
    and adds nothing to its body; the saved buffer is represented by the
    body it is written from. *)
Definition create_document (self : DocxGenerator) (extracted_text title : str)
  : result (DocxGenerator * list Block) :=
  let self := {| self_document := Some [] |} in
  do self <- on_document self [Heading title 0 (Some CENTER)];
  do self <- on_document self (_add_separator []);
  do self <- _process_content self extracted_text;
  match self_document self with
  | Some doc => Ok (self, doc)
  | None => Raise AttributeError
  end.

Definition generate_docx (extracted_text title : str) : result (list Block) :=
  let generator := DocxGenerator_init in
  do r <- create_document generator extracted_text title;
  Ok (snd r).

End Docx.

(** ** Sessions *)






(** ** Notions used to state the properties *)

(** The run [fill_row] puts in a cell of row [i]. *)
Definition cell_run (i : nat) (t : str) : Run :=
  {| text := t; bold := (i =? 0)%nat; italic := false; color := None;
     size := None |}.

(** Row [i] of a filled table of [ncols] columns: one run per cell of the
    parsed row, then cells without any run. *)
Definition grid_row (ncols i : nat) (row : list str) : list (list Run) :=
  ((λ t, [cell_run i t]) <$> row) ++ replicate (ncols - length row) [].

(** The grid of a filled table, rows numbered from [i]. *)
Fixpoint grid_from (ncols i : nat) (rows : list (list str))
  : list (list (list Run)) :=
  match rows with
  | [] => []
  | row :: rows' => grid_row ncols i row :: grid_from ncols (S i) rows'
  end.

(** A stripped line that reaches the table branch of the scan: every
    earlier test of the chain fails and the line has two pipes or more. *)
Definition opens_table (line : str) : bool :=
  truthy line
  && negb (startswith (lit "## ") line && negb (startswith (lit "### ") line))
  && negb (startswith (lit "### ") line)
  && negb (startswith (lit "# ") line && negb (startswith (lit "## ") line))
  && negb (startswith (lit "- ") line || startswith BULLET_GLYPH_SPACE line)
  && negb (re_match_numbered line)
  && negb (startswith (lit "> ") line)
  && negb (contains (lit "[DIAGRAM:") line)
  && (has_pipe line && (2 <=? count PIPE line)%nat).

(** The paragraph [_add_paragraph] or [_add_list] makes of a fragment. *)
Definition formatted (st : para_style) (fragment : str) : Block :=
  Para (_add_formatted_text (add_paragraph st) fragment).

(** The plain run the formatter adds for the text outside spans: none
    for the empty text. *)
Definition plain_runs (t : str) : list Run :=
  match t with
  | [] => []
  | _ :: _ => [add_run t]
  end.

(** Text without any of the formatter's delimiter characters. *)
Definition delimiter_free (t : str) : Prop := (STAR ∉ t) ∧ (DOLLAR ∉ t).

(** A block all of whose texts hold characters with [Q] only. *)
Definition texts_in (Q : N → Prop) (b : Block) : Prop :=
  Forall (Forall Q) (block_texts b).

(** A heading the scan may add: some text, level 0, 1 or 2, no alignment
    set. *)
Definition heading_ok (b : Block) : Prop :=
  match b with
  | Heading t level align =>
      t ≠ [] ∧ (level = 0 ∨ level = 1 ∨ level = 2)%Z ∧ align = None
  | _ => True
  end.

(** ** [utils/vision_extractor.py] *)

Module vision_extractor.

(** An entry of [AVAILABLE_MODELS]: a dict with the same four keys for
    every model. *)
Record model_info := mkModelInfo {
  id : str;
  name : str;
  description : str;
  inference_type : str
}.

Definition QWEN3_VL_8B : model_info :=
  {| id := lit "Qwen/Qwen3-VL-8B-Instruct";
     name := lit "Qwen3-VL-8B-Instruct";
     description :=
       lit "Excellent for handwritten text, diagrams, and scientific content";
     inference_type := lit "huggingface" |}.

Definition GPT_4_VISION : model_info :=
  {| id := lit "gpt-4o";
     name := lit "GPT-4 Vision (OpenAI)";
     description :=
       lit "Most accurate for complex documents, excellent reasoning";
     inference_type := lit "openai" |}.

(** A dict with [str] keys, in insertion order. *)
Definition AVAILABLE_MODELS : list (str * model_info) :=
  [ (lit "Qwen3-VL-8B", QWEN3_VL_8B); (lit "GPT-4-Vision", GPT_4_VISION) ].

(** [d.get(key)]: [None] for a missing key. *)
Fixpoint dict_get {V} (d : list (str * V)) (key : str) : option V :=
  match d with
  | [] => None
  | (k, v) :: d' => if decide (k = key) then Some v else dict_get d' key
  end.

Definition get_available_models : list str := fst <$> AVAILABLE_MODELS.

(** [AVAILABLE_MODELS.get(model_key, AVAILABLE_MODELS["Qwen3-VL-8B"])] *)
Definition get_model_info (model_key : str) : model_info :=
  match dict_get AVAILABLE_MODELS model_key with
  | Some info => info
  | None => QWEN3_VL_8B
  end.

(** What the constructor reads from outside: [os.environ] and the two
    flags set by the imports at the top of the module. *)
Record environment := mkEnvironment {
  environ : list (str * str);
  HF_HUB_AVAILABLE : bool;
  OPENAI_AVAILABLE : bool
}.

(** The client objects, as the arguments they are built from. *)
Inductive client_object :=
| InferenceClient (model : str) (token : option str)
| OpenAI (api_key : option str).

Record VisionExtractor := mkVisionExtractor {
  hf_token : option str;
  openai_key : option str;
  model_key : str;
  self_model_info : model_info;
  self_inference_type : str;
  client : option client_object
}.

Inductive outcome (A : Type) :=
| Return (a : A)
| RuntimeError (message : str).
Arguments Return {A} a.
Arguments RuntimeError {A} message.

(** [a or b] on optional strings: [None] and [''] are falsy. *)
Definition py_or (a b : option str) : option str :=
  match a with
  | Some (_ :: _) => a
  | _ => b
  end.

Definition is_set (a : option str) : bool :=
  match a with
  | Some (_ :: _) => true
  | _ => false
  end.

(** [VisionExtractor.__init__] *)
Definition __init__ (env : environment) (hf_token openai_key : option str)
  (model_key : str) : outcome VisionExtractor :=
  let hf_token := py_or hf_token (dict_get (environ env) (lit "HF_TOKEN")) in
  let openai_key :=
    py_or openai_key (dict_get (environ env) (lit "OPENAI_API_KEY")) in
  let info := get_model_info model_key in
  let type := inference_type info in
  let self c :=
    {| hf_token := hf_token; openai_key := openai_key; model_key := model_key;
       self_model_info := info; self_inference_type := type; client := c |} in
  if decide (type = lit "huggingface") then
    if negb (HF_HUB_AVAILABLE env) then
      RuntimeError
        (lit "huggingface_hub not installed. Run: pip install huggingface_hub")
    else Return (self (Some (InferenceClient (id info) hf_token)))
  else if decide (type = lit "openai") then
    if negb (OPENAI_AVAILABLE env) then
      RuntimeError (lit "openai not installed. Run: pip install openai")
    else if negb (is_set openai_key) then
      RuntimeError
        (lit "OpenAI API key required. Set OPENAI_API_KEY in secrets.toml")
    else Return (self (Some (OpenAI openai_key)))
  else Return (self None).

(** [extract_text], over the two methods that call the remote models. *)
Section extract_text.
Context {image : Type}.
Variable _extract_via_huggingface : VisionExtractor → image → outcome str.
Variable _extract_via_openai : VisionExtractor → image → outcome str.

Definition extract_text (self : VisionExtractor) (img : image) : outcome str :=
  if decide (self_inference_type self = lit "huggingface") then
    _extract_via_huggingface self img
  else if decide (self_inference_type self = lit "openai") then
    _extract_via_openai self img
  else
    RuntimeError (lit "Unknown inference type: " ++ self_inference_type self).
End extract_text.

(** *** [parse_formatting_markers] *)

(** The result dict, with its eight fixed keys. *)
Record markers := mkMarkers {
  headings : list (Z * str);
  bold_text : list str;
  bullet_points : list str;
  numbered_lists : list str;
  diagrams : list str;
  tables : list str;
  paragraphs : list str;
  formulas : list str
}.

Definition no_markers : markers :=
  {| headings := []; bold_text := []; bullet_points := [];
     numbered_lists := []; diagrams := []; tables := []; paragraphs := [];
     formulas := [] |}.

(** [result[key].append(x)] and [result[key].extend(xs)], key by key. *)
Definition append_heading (h : Z * str) (r : markers) : markers :=
  {| headings := headings r ++ [h]; bold_text := bold_text r;
     bullet_points := bullet_points r; numbered_lists := numbered_lists r;
     diagrams := diagrams r; tables := tables r; paragraphs := paragraphs r;
     formulas := formulas r |}.

Definition append_bullet (x : str) (r : markers) : markers :=
  {| headings := headings r; bold_text := bold_text r;
     bullet_points := bullet_points r ++ [x];
     numbered_lists := numbered_lists r;
     diagrams := diagrams r; tables := tables r; paragraphs := paragraphs r;
     formulas := formulas r |}.

Definition append_numbered (x : str) (r : markers) : markers :=
  {| headings := headings r; bold_text := bold_text r;
     bullet_points := bullet_points r;
     numbered_lists := numbered_lists r ++ [x];
     diagrams := diagrams r; tables := tables r; paragraphs := paragraphs r;
     formulas := formulas r |}.

Definition append_diagram (x : str) (r : markers) : markers :=
  {| headings := headings r; bold_text := bold_text r;
     bullet_points := bullet_points r; numbered_lists := numbered_lists r;
     diagrams := diagrams r ++ [x]; tables := tables r;
     paragraphs := paragraphs r; formulas := formulas r |}.

Definition append_table (x : str) (r : markers) : markers :=
  {| headings := headings r; bold_text := bold_text r;
     bullet_points := bullet_points r; numbered_lists := numbered_lists r;
     diagrams := diagrams r; tables := tables r ++ [x];
     paragraphs := paragraphs r; formulas := formulas r |}.

Definition append_paragraph (x : str) (r : markers) : markers :=
  {| headings := headings r; bold_text := bold_text r;
     bullet_points := bullet_points r; numbered_lists := numbered_lists r;
     diagrams := diagrams r; tables := tables r;
     paragraphs := paragraphs r ++ [x]; formulas := formulas r |}.

Definition extend_inline (bolds formulae : list str) (r : markers) : markers :=
  {| headings := headings r; bold_text := bold_text r ++ bolds;
     bullet_points := bullet_points r; numbered_lists := numbered_lists r;
     diagrams := diagrams r; tables := tables r; paragraphs := paragraphs r;
     formulas := formulas r ++ formulae |}.

(** [sep.join(parts)] for a one-character separator *)
Fixpoint join (sep : N) (parts : list str) : str :=
  match parts with
  | [] => []
  | [part] => part
  | part :: parts' => part ++ [sep] ++ join sep parts'
  end.

(** [re.findall] of the pattern [delim(.*?)delim] for a literal
    delimiter: group 1 of the matches found from left to right, each
    search going on after the match before.  [skip] counts the characters
    of the current match still to pass over. *)
Fixpoint findall_from (delim : str) (skip : nat) (s : str) : list str :=
  match s with
  | [] => []
  | _ :: s' =>
      match skip with
      | S skip' => findall_from delim skip' s'
      | O =>
          if startswith delim s then
            match lazy_until delim (drop (length delim) s) with
            | Some (inner, _) =>
                inner ::
                findall_from delim
                  (length delim + length inner + length delim - 1) s'
            | None => findall_from delim 0 s'
            end
          else findall_from delim 0 s'
      end
  end.

Definition findall (delim : str) (s : str) : list str := findall_from delim 0 s.

(** [re.match(r'^\d+\.', s)] as a truth value *)
Definition re_match_digits_dot (s : str) : bool :=
  match take_while isdecimal s, drop_while isdecimal s with
  | _ :: _, 46 :: _ => true
  | _, _ => false
  end.

(** The loop variables next to [result]. *)
Record parse_state := mkParseState {
  result : markers;
  current_table : list str;
  in_table : bool
}.

Definition with_result (f : markers → markers) (st : parse_state) : parse_state :=
  {| result := f (result st); current_table := current_table st;
     in_table := in_table st |}.

(** The body of [for line in lines], up to the inline part. *)
Definition classify_line (stripped : str) (st : parse_state) : parse_state :=
  if startswith (lit "## ") stripped && negb (startswith (lit "### ") stripped) then
    with_result (append_heading (2%Z, drop 3 stripped)) st
  else if startswith (lit "### ") stripped then
    with_result (append_heading (3%Z, drop 4 stripped)) st
  else if startswith (lit "# ") stripped then
    with_result (append_heading (1%Z, drop 2 stripped)) st
  else if startswith (lit "- ") stripped || startswith (lit "* ") stripped then
    with_result (append_bullet (drop 2 stripped)) st
  else if re_match_numbered stripped then
    with_result (append_numbered (re_sub_numbered stripped)) st
  else if contains (lit "[DIAGRAM:") stripped then
    match re_search_diagram stripped with
    | Some group1 => with_result (append_diagram group1) st
    | None => st
    end
  else if has_pipe stripped && (2 <=? count PIPE stripped)%nat then
    {| result := result st; current_table := current_table st ++ [stripped];
       in_table := true |}
  else if in_table st && truthy stripped then
    if has_pipe stripped then
      {| result := result st; current_table := current_table st ++ [stripped];
         in_table := in_table st |}
    else
      {| result := append_table (join LF (current_table st)) (result st);
         current_table := []; in_table := false |}
  else if truthy stripped
          && negb (startswith (lit "#") stripped
                   || startswith (lit "-") stripped
                   || startswith (lit "*") stripped
                   || re_match_digits_dot stripped
                   || contains (lit "[DIAGRAM:") stripped) then
    with_result (append_paragraph stripped) st
  else st.

Definition parse_line (st : parse_state) (line : str) : parse_state :=
  let stripped := strip line in
  with_result
    (extend_inline (findall (lit "**") stripped) (findall (lit "$") stripped))
    (classify_line stripped st).

Definition parse_formatting_markers (t : str) : markers :=
  let st :=
    foldl parse_line
      {| result := no_markers; current_table := []; in_table := false |}
      (split LF t) in
  if truthy (current_table st)
  then append_table (join LF (current_table st)) (result st)
  else result st.

End vision_extractor.

(** ** [app.py]: the cached extractor *)

Module app.
Import vision_extractor.

(** The values the application keeps in [st.session_state] under the
    extractor keys. *)
Inductive session_value :=
| an_extractor (e : VisionExtractor)
| none_value
| a_message (message : str).

(** [d[key] = value] on a dict in insertion order. *)
Fixpoint dict_set {V} (d : list (str * V)) (key : str) (value : V)
  : list (str * V) :=
  match d with
  | [] => [(key, value)]
  | (k, v) :: d' =>
      if decide (k = key) then (k, value) :: d'
      else (k, v) :: dict_set d' key value
  end.

(** [st.secrets.get(key, None)] inside [try ... except Exception]: no
    secrets at all ([None]) when the access raises. *)
Definition secrets_get (secrets : option (list (str * str))) (key : str)
  : option str :=
  match secrets with
  | Some d => dict_get d key
  | None => None
  end.

(** [get_extractor]: the session state afterwards and the value returned. *)
Definition get_extractor (env : environment) (secrets : option (list (str * str)))
  (session_state : list (str * session_value)) (model_key : str)
  : list (str * session_value) * session_value :=
  let extractor_key := lit "extractor_" ++ model_key in
  let session_state :=
    match dict_get session_state extractor_key with
    | Some _ => session_state
    | None =>
        let hf_token := dict_get (environ env) (lit "HF_TOKEN") in
        let hf_token :=
          if negb (is_set hf_token) then secrets_get secrets (lit "HF_TOKEN")
          else hf_token in
        let openai_key := dict_get (environ env) (lit "OPENAI_API_KEY") in
        let openai_key :=
          if negb (is_set openai_key)
          then secrets_get secrets (lit "OPENAI_API_KEY")
          else openai_key in
        match __init__ env hf_token openai_key model_key with
        | Return e => dict_set session_state extractor_key (an_extractor e)
        | RuntimeError message =>
            dict_set (dict_set session_state extractor_key none_value)
                     (extractor_key ++ lit "_error") (a_message message)
        end
    end in
  (session_state,
   match dict_get session_state extractor_key with
   | Some v => v
   | None => none_value
   end).

End app.

(** * Properties *)

(** Facts about closed inputs are settled by running the definitions. *)
Ltac by_evaluation := repeat split; by vm_compute.

(** ** Table building *)

Lemma insert_middle {A} (l1 l2 : list A) (x y : A) :
  <[length l1 := x]> (l1 ++ y :: l2) = l1 ++ x :: l2.
Proof.
  rewrite <- (Nat.add_0_r (length l1)). by rewrite insert_app_r.
Qed.

Lemma fill_row_spec row : ∀ nc i j t pre filled post,
  cells t = pre ++ (filled ++ replicate (nc - j) []) :: post →
  length pre = i → length filled = j → (j + length row ≤ nc)%nat →
  fill_row nc i j row t =
    Ok {| cols := cols t;
          cells := pre ++ (filled ++ ((λ c, [cell_run i c]) <$> row)
                             ++ replicate (nc - j - length row) []) :: post |}.
Proof.
  induction row as [|c row IH]; intros nc i j t pre filled post Hc Hi Hj Hle;
    simpl in *.
  - rewrite Nat.sub_0_r, <- Hc. by destruct t.
  - assert (Hlt : (j <? nc)%nat = true) by (apply Nat.ltb_lt; lia).
    rewrite Hlt. unfold cell_add_run.
    assert (Hrow : cells t !! i = Some (filled ++ replicate (nc - j) []))
      by (rewrite Hc; by apply list_lookup_middle).
    rewrite Hrow.
    destruct (nc - j)%nat as [|k] eqn:Hk; [lia|].
    assert (Hcell : (filled ++ replicate (S k) ([] : list Run)) !! j = Some [])
      by (by apply list_lookup_middle).
    rewrite Hcell. simpl.
    rewrite (IH nc i (S j) _ pre (filled ++ [[cell_run i c]]) post); simpl.
    + f_equal. f_equal. f_equal. f_equal.
      rewrite <- !(assoc_L (++)). simpl.
      replace (nc - S j - length row)%nat with (k - length row)%nat by lia.
      done.
    + rewrite Hc, <- Hi, <- Hj.
      rewrite insert_middle, insert_middle.
      rewrite <- (assoc_L (++)). simpl.
      by replace (nc - S (length filled))%nat with k by lia.
    + done.
    + rewrite length_app. simpl. lia.
    + lia.
Qed.

Lemma fill_rows_spec rows : ∀ nc i t filled,
  cells t = filled ++ replicate (length rows) (replicate nc []) →
  length filled = i →
  Forall (λ row, (length row ≤ nc)%nat) rows →
  fill_rows nc i rows t =
    Ok {| cols := cols t; cells := filled ++ grid_from nc i rows |}.
Proof.
  induction rows as [|row rows IH]; intros nc i t filled Hc Hi Hall; simpl in *.
  - rewrite <- Hc. by destruct t.
  - inversion Hall as [|? ? Hrow Hrows]; subst.
    rewrite (fill_row_spec row nc (length filled) 0 t filled []
               (replicate (length rows) (replicate nc [])));
      [| by rewrite Nat.sub_0_r | done | done | simpl; lia].
    simpl. rewrite Nat.sub_0_r.
    rewrite (IH nc (S (length filled)) _ (filled ++ [grid_row nc (length filled) row]));
      simpl.
    + by rewrite <- (assoc_L (++)).
    + by rewrite <- (assoc_L (++)).
    + rewrite length_app. simpl. lia.
    + done.
Qed.

Lemma foldl_max_spec (l : list nat) : ∀ a,
  (a ≤ foldl Nat.max a l)%nat ∧
  Forall (λ n, (n ≤ foldl Nat.max a l)%nat) l ∧
  (foldl Nat.max a l = a ∨ foldl Nat.max a l ∈ l).
Proof.
  induction l as [|n l IH]; intros a; simpl.
  - split; [lia|]. split; [constructor | by left].
  - destruct (IH (Nat.max a n)) as (Hle & Hall & Hin).
    split; [lia|]. split.
    + constructor; [lia | done].
    + destruct Hin as [Heq | Hin].
      * rewrite Heq. destruct (Nat.max_spec a n) as [[_ ->] | [_ ->]].
        -- right. left.
        -- by left.
      * right. by right.
Qed.

(** [max] is defined on every non-empty list and is its greatest element. *)
Lemma py_max_spec (l : list nat) :
  l ≠ [] →
  ∃ m, py_max l = Ok m ∧ Forall (λ n, (n ≤ m)%nat) l ∧ m ∈ l.
Proof.
  destruct l as [|n l]; [done | intros _].
  exists (foldl Nat.max n l). destruct (foldl_max_spec l n) as (Hle & Hall & Hin).
  split; [done|]. split.
  - by constructor.
  - destruct Hin as [-> | Hin]; [left | by right].
Qed.

(** What [_add_table_from_markdown] does, in closed form: nothing when no
    row is retained, otherwise one table and the empty paragraph after it. *)
Lemma add_table_from_markdown_spec table_lines doc :
  (parse_rows table_lines = [] ∧
   _add_table_from_markdown table_lines doc = Ok doc) ∨
  (∃ n, parse_rows table_lines ≠ [] ∧
        py_max (length <$> parse_rows table_lines) = Ok n ∧
        Forall (λ row, (length row ≤ n)%nat) (parse_rows table_lines) ∧
        (∃ row, row ∈ parse_rows table_lines ∧ length row = n) ∧
        _add_table_from_markdown table_lines doc =
          Ok (doc ++ [Tbl {| cols := n;
                             cells := grid_from n 0 (parse_rows table_lines) |};
                      Para (add_paragraph Normal)])).
Proof.
  unfold _add_table_from_markdown.
  destruct table_lines as [|line table_lines]; [by left|].
  cbn [truthy negb].
  destruct (parse_rows (line :: table_lines)) as [|row rows] eqn:Hrows;
    [by left | right].
  destruct (py_max_spec (length <$> row :: rows)) as (n & Hmax & Hall & Hin);
    [done|].
  exists n. split; [done|]. split; [done|].
  assert (Hall' : Forall (λ r : list (list N), (length r ≤ n)%nat) (row :: rows)).
  { by apply Forall_fmap in Hall. }
  split; [done|]. split.
  { apply list_elem_of_fmap in Hin as (r & -> & Hr). by exists r. }
  cbn [truthy negb]. rewrite Hmax. cbn [bind].
  rewrite (fill_rows_spec (row :: rows) n 0 _ []); [done | | done | done].
  unfold add_table. simpl. done.
Qed.

(** ** The scan *)

(** The inner loop in closed form: the lines it takes are the longest
    stretch of lines that contain a pipe. *)
Lemma collect_spec (l : locals) (doc : document) : ∀ after table_lines,
  (fix collect (table_lines : list str) (after : list str) {struct after}
     : result document :=
     match after with
     | next :: after' =>
         if has_pipe next then collect (table_lines ++ [strip next]) after'
         else
           do doc' <- _add_table_from_markdown table_lines (flush_list l doc);
           scan_lines after (flush_locals l) doc'
     | [] =>
         do doc' <- _add_table_from_markdown table_lines (flush_list l doc);
         Ok (flush_list (flush_locals l) doc')
     end) table_lines after =
  (do doc' <- _add_table_from_markdown
                (table_lines ++ (strip <$> take_while has_pipe after))
                (flush_list l doc);
   scan_lines (drop_while has_pipe after) (flush_locals l) doc').
Proof.
  induction after as [|next after IH]; intros table_lines.
  - simpl. by rewrite app_nil_r.
  - cbn [take_while drop_while]. destruct (has_pipe next) eqn:Hp.
    + rewrite IH. rewrite fmap_cons, <- (assoc_L (++)). done.
    + simpl. by rewrite app_nil_r.
Qed.

(** One turn of the outer loop. *)
Lemma scan_lines_cons raw rest l doc :
  scan_lines (raw :: rest) l doc =
  let line := strip raw in
  if negb (truthy line) then
    scan_lines rest (flush_locals l) (flush_list l doc)
  else if startswith (lit "## ") line && negb (startswith (lit "### ") line) then
    scan_lines rest (flush_locals l)
      (_add_heading (drop 3 line) 1 (flush_list l doc))
  else if startswith (lit "### ") line then
    scan_lines rest (flush_locals l)
      (_add_heading (drop 4 line) 2 (flush_list l doc))
  else if startswith (lit "# ") line && negb (startswith (lit "## ") line) then
    scan_lines rest (flush_locals l)
      (_add_heading (drop 2 line) 0 (flush_list l doc))
  else if startswith (lit "- ") line || startswith BULLET_GLYPH_SPACE line then
    scan_lines rest (append_item bullet (drop 2 line) l) doc
  else if re_match_numbered line then
    scan_lines rest (append_item numbered (re_sub_numbered line) l) doc
  else if startswith (lit "> ") line then
    scan_lines rest (flush_locals l)
      (_add_blockquote (drop 2 line) (flush_list l doc))
  else if contains (lit "[DIAGRAM:") line then
    match re_search_diagram line with
    | Some group1 =>
        scan_lines rest (flush_locals l)
          (_add_diagram_placeholder group1 (flush_list l doc))
    | None => scan_lines rest (flush_locals l) (flush_list l doc)
    end
  else if has_pipe line && (2 <=? count PIPE line)%nat then
    do doc' <- _add_table_from_markdown
                 (line :: (strip <$> take_while has_pipe rest))
                 (flush_list l doc);
    scan_lines (drop_while has_pipe rest) (flush_locals l) doc'
  else
    scan_lines rest (flush_locals l) (_add_paragraph line (flush_list l doc)).
Proof.
  cbn [scan_lines]. rewrite collect_spec. reflexivity.
Qed.

Lemma add_list_appends items lt : ∀ doc,
  _add_list items lt doc = doc ++ _add_list items lt [].
Proof.
  induction items as [|item items IH]; intros doc; simpl.
  - by rewrite app_nil_r.
  - rewrite IH, (IH [_]). by rewrite <- (assoc_L (++)).
Qed.

Lemma flush_list_appends l doc : flush_list l doc = doc ++ flush_list l [].
Proof.
  unfold flush_list. destruct (truthy (list_items l)).
  - apply add_list_appends.
  - by rewrite app_nil_r.
Qed.

(** [_add_list] in closed form: one paragraph per item, in order, all in
    the style of the one list kind it is called with. *)
Lemma add_list_closed_form items lt : ∀ doc,
  _add_list items lt doc = doc ++ (formatted (list_style lt) <$> items).
Proof.
  induction items as [|item items IH]; intros doc; simpl.
  - by rewrite app_nil_r.
  - rewrite IH. by rewrite <- (assoc_L (++)).
Qed.

(** The flush written out: the pending items go to the document as
    paragraphs of the pending kind, and the two locals are reset. *)
Lemma flush_list_explicit l doc :
  flush_list l doc =
  doc ++ (formatted (list_style (current_list_type l)) <$> list_items l).
Proof.
  unfold flush_list. destruct (list_items l) as [|item items] eqn:Hl.
  - by rewrite app_nil_r.
  - cbn [truthy]. by rewrite add_list_closed_form.
Qed.

Lemma flush_locals_explicit l :
  flush_locals l =
  {| current_list_type :=
       match list_items l with [] => current_list_type l | _ :: _ => None end;
     list_items := [] |}.
Proof.
  unfold flush_locals. destruct l as [lt [|item items]]; reflexivity.
Qed.

(** A flushed table only appends, and what it appends does not depend on
    the document. *)
Lemma add_table_appends table_lines :
  ∃ blocks, ∀ doc, _add_table_from_markdown table_lines doc = Ok (doc ++ blocks).
Proof.
  destruct (add_table_from_markdown_spec table_lines [])
    as [[Hnil _] | (n & Hne & Hmax & _ & _ & _)].
  - exists []. intros doc. rewrite app_nil_r.
    destruct (add_table_from_markdown_spec table_lines doc)
      as [[_ H] | (n & Hne & _)]; [done | by destruct Hne].
  - eexists. intros doc.
    destruct (add_table_from_markdown_spec table_lines doc)
      as [[Hnil _] | (m & _ & Hmax' & _ & _ & ->)]; [by destruct Hne|].
    rewrite Hmax in Hmax'. injection Hmax' as <-. reflexivity.
Qed.

Lemma drop_while_length {A} (p : A → bool) (s : list A) :
  (length (drop_while p s) ≤ length s)%nat.
Proof.
  induction s as [|c s IH]; simpl; [done|]. destruct (p c); simpl; lia.
Qed.

(** The scan always returns, and it appends to the document blocks that
    depend on the remaining lines and the two locals only. *)
Lemma scan_lines_appends : ∀ n lines, (length lines ≤ n)%nat → ∀ l,
  ∃ blocks, ∀ doc, scan_lines lines l doc = Ok (doc ++ blocks).
Proof.
  induction n as [|n IH]; intros lines Hlen l.
  - destruct lines; [|simpl in Hlen; lia].
    exists (flush_list l []). intros doc. simpl. f_equal.
    apply flush_list_appends.
  - destruct lines as [|raw rest].
    { exists (flush_list l []). intros doc. simpl. f_equal.
      apply flush_list_appends. }
    simpl in Hlen.
    assert (Hrest : (length rest ≤ n)%nat) by lia.
    assert (Hflush : ∀ l' (tail : list Block), ∃ blocks, ∀ doc,
              scan_lines rest l' (flush_list l doc ++ tail) = Ok (doc ++ blocks)).
    { intros l' tail. destruct (IH rest Hrest l') as [bs Hbs].
      exists (flush_list l [] ++ tail ++ bs). intros doc.
      rewrite Hbs, (flush_list_appends l doc).
      by rewrite <- !(assoc_L (++)). }
    assert (Hflush0 : ∀ l', ∃ blocks, ∀ doc,
              scan_lines rest l' (flush_list l doc) = Ok (doc ++ blocks)).
    { intros l'. destruct (Hflush l' []) as [bs Hbs]. exists bs. intros doc.
      rewrite <- Hbs. by rewrite app_nil_r. }
    setoid_rewrite scan_lines_cons. cbv zeta.
    destruct (negb (truthy (strip raw))); [apply Hflush0|].
    destruct (_ && _); [apply Hflush|].
    destruct (startswith (lit "### ") _); [apply Hflush|].
    destruct (_ && _); [apply Hflush|].
    destruct (_ || _); [apply IH; done|].
    destruct (re_match_numbered _); [apply IH; done|].
    destruct (startswith (lit "> ") _); [apply Hflush|].
    destruct (contains _ _).
    { destruct (re_search_diagram _); [apply Hflush | apply Hflush0]. }
    destruct (_ && _); [|apply Hflush].
    destruct (add_table_appends (strip raw :: (strip <$> take_while has_pipe rest)))
      as [tbl Htbl].
    assert (Hdrop : (length (drop_while has_pipe rest) ≤ n)%nat)
      by (pose proof (drop_while_length has_pipe rest); lia).
    destruct (IH _ Hdrop (flush_locals l)) as [bs Hbs].
    exists (flush_list l [] ++ tbl ++ bs). intros doc.
    rewrite Htbl. cbn [bind]. rewrite Hbs, (flush_list_appends l doc).
    by rewrite <- !(assoc_L (++)).
Qed.

(** ** Strings *)

Lemma startswith_true prefix : ∀ s,
  startswith prefix s = true → ∃ s', s = prefix ++ s'.
Proof.
  induction prefix as [|p prefix IH]; intros s H.
  - by exists s.
  - destruct s as [|c s]; [done|]. simpl in H.
    apply andb_prop in H as [Hc Hs]. apply N.eqb_eq in Hc as ->.
    destruct (IH s Hs) as [s' ->]. by exists s'.
Qed.

(** ** Inline formatting *)

(** C1 (defect of the code): the fragments [*], [$] and [**] hold no
    matched span ([re.split] returns the fragment as its only part), so
    the round trip asks for the fragment itself as the text of the runs;
    the formatter returns one italic (bold for [**]) run with empty text,
    and the delimiter characters are lost. *)
Theorem C1_lone_delimiter_is_deleted :
  re_split (lit "*") = [lit "*"] ∧
  re_split (lit "$") = [lit "$"] ∧
  re_split (lit "**") = [lit "**"] ∧
  format (lit "*") =
    [{| text := []; bold := false; italic := true; color := None;
        size := None |}] ∧
  format (lit "$") =
    [{| text := []; bold := false; italic := true; color := Some PURPLE;
        size := None |}] ∧
  format (lit "**") =
    [{| text := []; bold := true; italic := false; color := None;
        size := None |}] ∧
  runs_text (format (lit "*")) ≠ lit "*" ∧
  runs_text (format (lit "$")) ≠ lit "$" ∧
  runs_text (format (lit "**")) ≠ lit "**".
Proof. by_evaluation. Qed.

(** The fourth end-to-end scenario of the specification. *)
Example format_scenario :
  format (lit "Some **bold** and *italic* and $x+1$ text.") =
  [ add_run (lit "Some ");
    {| text := lit "bold"; bold := true; italic := false; color := None;
       size := None |};
    add_run (lit " and ");
    {| text := lit "italic"; bold := false; italic := true; color := None;
       size := None |};
    add_run (lit " and ");
    {| text := lit "x+1"; bold := false; italic := true; color := Some PURPLE;
       size := None |};
    add_run (lit " text.") ].
Proof. by vm_compute. Qed.

(** ** List runs *)

(** C2 (defect of the code): a numbered line right after a bullet line
    does not close the bullet list.  Nothing is added to the document at
    the switch; the numbered item joins the pending items, the kind of
    the whole run becomes [numbered], and the bullet item comes out as a
    [List Number] paragraph. *)
Theorem C2_kind_switch_merges_the_lists :
  (∀ rest doc,
     scan_lines (lit "- a" :: lit "1. b" :: rest) no_list doc =
     scan_lines rest
       {| current_list_type := Some numbered;
          list_items := [lit "a"; lit "b"] |} doc) ∧
  _process_content (lit "- a" ++ [LF] ++ lit "1. b") [] =
    Ok [formatted ListNumber (lit "a"); formatted ListNumber (lit "b")] ∧
  _process_content (lit "- a" ++ [LF] ++ lit "1. b") [] ≠
    Ok [formatted ListBullet (lit "a"); formatted ListNumber (lit "b")].
Proof.
  split; [|split].
  - intros rest doc. rewrite !scan_lines_cons. reflexivity.
  - by vm_compute.
  - by vm_compute.
Qed.

(** Consecutive bullet lines do make one list: the items gather in one
    pending run and no block is added between them. *)
Lemma bullet_lines_gather raw rest l doc :
  startswith (lit "- ") (strip raw) = true →
  scan_lines (raw :: rest) l doc =
  scan_lines rest (append_item bullet (drop 2 (strip raw)) l) doc.
Proof.
  intros H. rewrite scan_lines_cons. cbv zeta.
  apply startswith_true in H as [line ->]. reflexivity.
Qed.

(** ** Table runs *)

Lemma has_pipe_elem (s : str) : has_pipe s = true ↔ PIPE ∈ s.
Proof.
  unfold has_pipe. induction s as [|c s IH].
  - split; [done | by intros ?%elem_of_nil].
  - cbn [contains startswith].
    rewrite andb_true_r, orb_true_iff, IH, elem_of_cons, N.eqb_eq. done.
Qed.

Lemma count_elem (c : N) (s : str) : (1 ≤ count c s)%nat ↔ c ∈ s.
Proof.
  unfold count. induction s as [|x s IH].
  - simpl. split; [lia | by intros ?%elem_of_nil].
  - rewrite filter_cons, elem_of_cons. destruct (decide (x = c)) as [->|Hne].
    + simpl. split; [by left | lia].
    + rewrite IH. split; [by right | by intros [->|?]].
Qed.

Lemma take_drop_while_stop {A} (p : A → bool) (more rest : list A) :
  Forall (λ x, p x = true) more →
  match rest with [] => True | x :: _ => p x = false end →
  take_while p (more ++ rest) = more ∧ drop_while p (more ++ rest) = rest.
Proof.
  intros Hmore Hrest. induction Hmore as [|x more Hx _ IH]; simpl.
  - destruct rest as [|x rest]; [done|]. simpl. by rewrite Hrest.
  - rewrite Hx. destruct IH as [-> ->]. done.
Qed.

(** A table run in closed form: the line that opens it, the lines with a
    pipe that follow, and the line that stops it. *)
Lemma scan_lines_table_run raw more rest l doc :
  opens_table (strip raw) = true →
  Forall (λ next, has_pipe next = true) more →
  match rest with [] => True | next :: _ => has_pipe next = false end →
  scan_lines (raw :: more ++ rest) l doc =
  (do doc' <- _add_table_from_markdown
                (strip raw :: (strip <$> more)) (flush_list l doc);
   scan_lines rest (flush_locals l) doc').
Proof.
  intros Hopen Hmore Hrest. rewrite scan_lines_cons. cbv zeta.
  unfold opens_table in Hopen. rewrite !andb_true_iff in Hopen.
  destruct Hopen as ((((((((Ht & H1) & H2) & H3) & H4) & H5) & H6) & H7) & H8 & H9).
  apply negb_true_iff in H1, H2, H3, H4, H5, H6, H7.
  rewrite Ht, H1, H2, H3, H4, H5, H6, H7, H8, H9. cbn [negb andb].
  by destruct (take_drop_while_stop has_pipe more rest) as [-> ->].
Qed.

Lemma has_pipe_count (s : str) : has_pipe s = true ↔ (1 ≤ count PIPE s)%nat.
Proof. by rewrite has_pipe_elem, count_elem. Qed.

(** C3, as the code has it: once a line has opened a table, the lines
    taken into it are exactly the following lines that contain a pipe, one
    pipe being enough; the first line without any pipe (or the end of the
    input) closes the table, and the scan goes on at that line. *)
Theorem C3_table_continues_while_a_pipe raw more rest l doc :
  opens_table (strip raw) = true →
  Forall (λ next, (1 ≤ count PIPE next)%nat) more →
  match rest with [] => True | next :: _ => count PIPE next = 0%nat end →
  scan_lines (raw :: more ++ rest) l doc =
  (do doc' <- _add_table_from_markdown
                (strip raw :: (strip <$> more)) (flush_list l doc);
   scan_lines rest (flush_locals l) doc').
Proof.
  intros Hopen Hmore Hrest. apply scan_lines_table_run; [done | |].
  - revert Hmore. apply List.Forall_impl. intros next Hn.
    by apply has_pipe_count.
  - destruct rest as [|next rest]; [done|].
    destruct (has_pipe next) eqn:Hp; [|done].
    apply has_pipe_count in Hp. lia.
Qed.

Lemma C3_table_continues_while_a_pipe_witness :
  scan_lines [lit "|a|b|"; lit "c|d"; lit "e"] no_list [] =
  (do doc' <- _add_table_from_markdown [lit "|a|b|"; lit "c|d"] [];
   scan_lines [lit "e"] no_list doc').
Proof.
  apply (C3_table_continues_while_a_pipe
           (lit "|a|b|") [lit "c|d"] [lit "e"] no_list []).
  - reflexivity.
  - repeat constructor.
  - reflexivity.
Defined.

(** The claim as written fails: a line with exactly one pipe after a table
    row does not close the table; it is taken in as a second row. *)
Lemma C3_one_pipe_line_is_absorbed :
  count PIPE (lit "c|d") = 1%nat ∧
  scan_lines [lit "|a|b|"; lit "c|d"] no_list [] =
    _add_table_from_markdown [lit "|a|b|"; lit "c|d"] [] ∧
  scan_lines [lit "|a|b|"; lit "c|d"] no_list [] ≠
    (do doc' <- _add_table_from_markdown [lit "|a|b|"] [];
     scan_lines [lit "c|d"] no_list doc').
Proof. by_evaluation. Qed.

(** ** Diagram markers *)

(** C4 (defect of the code): a line with the tag [[DIAGRAM:] and no
    closing bracket enters the diagram branch, the search finds nothing,
    and the branch has no [else]: no block is added for the line, whereas
    the paragraph fallback would have added one. *)
Theorem C4_malformed_diagram_line_is_dropped :
  contains (lit "[DIAGRAM:") (lit "[DIAGRAM: a flowchart") = true ∧
  re_search_diagram (lit "[DIAGRAM: a flowchart") = None ∧
  _process_content (lit "[DIAGRAM: a flowchart") [] = Ok [] ∧
  _process_content (lit "[DIAGRAM: a flowchart") [] ≠
    Ok (_add_paragraph (lit "[DIAGRAM: a flowchart") []).
Proof. by_evaluation. Qed.

(** The fifth end-to-end scenario: a well-formed tag. *)
Example diagram_scenario :
  _process_content (lit "[DIAGRAM: a flowchart]") [] =
  Ok (_add_diagram_placeholder (lit "a flowchart") []).
Proof. by vm_compute. Qed.

(** ** Headings *)

(** C5: [## ] gives level 1, [### ] level 2 and [# ] level 0, with the
    text after the marker and its space.  Each first flushes the open
    list: the pending items come into the document as list paragraphs of
    the pending kind, before the heading, and the scan goes on with no
    item pending.  And the first end-to-end scenario, alone and after an
    open list. *)
Theorem C5_heading_levels raw rest l doc :
  let line := strip raw in
  let pending := formatted (list_style (current_list_type l)) <$> list_items l in
  let flushed :=
    {| current_list_type :=
         match list_items l with [] => current_list_type l | _ :: _ => None end;
       list_items := [] |} in
  (startswith (lit "## ") line = true →
   startswith (lit "### ") line = false →
   scan_lines (raw :: rest) l doc =
   scan_lines rest flushed
     (doc ++ pending ++ [Heading (drop 3 line) 1 None])) ∧
  (startswith (lit "### ") line = true →
   scan_lines (raw :: rest) l doc =
   scan_lines rest flushed
     (doc ++ pending ++ [Heading (drop 4 line) 2 None])) ∧
  (startswith (lit "# ") line = true →
   startswith (lit "## ") line = false →
   scan_lines (raw :: rest) l doc =
   scan_lines rest flushed
     (doc ++ pending ++ [Heading (drop 2 line) 0 None])) ∧
  _process_content (lit "## Title" ++ [LF] ++ lit "Some text." ++ [LF]) [] =
    Ok [Heading (lit "Title") 1 None; formatted Normal (lit "Some text.")] ∧
  format (lit "Some text.") = [add_run (lit "Some text.")] ∧
  _process_content (lit "- a" ++ [LF] ++ lit "- b" ++ [LF] ++ lit "## Title") [] =
    Ok [formatted ListBullet (lit "a"); formatted ListBullet (lit "b");
        Heading (lit "Title") 1 None].
Proof.
  intros line pending flushed. subst line pending flushed.
  rewrite scan_lines_cons. cbv zeta.
  assert (Hflush : flush_list l doc
            = doc ++ (formatted (list_style (current_list_type l)) <$> list_items l)).
  { unfold flush_list. destruct (list_items l) as [|item items].
    - by rewrite app_nil_r.
    - cbn [truthy]. by rewrite add_list_closed_form. }
  assert (Hlocals : flush_locals l
            = {| current_list_type :=
                   match list_items l with
                   | [] => current_list_type l
                   | _ :: _ => None
                   end;
                 list_items := [] |}).
  { unfold flush_locals. by destruct l as [lt [|item items]]. }
  rewrite Hflush, Hlocals.
  unfold _add_heading. rewrite <- !(assoc_L (++)).
  split; [|split; [|split; [|split; [|split]]]].
  - intros H _. apply startswith_true in H as [line ->]. reflexivity.
  - intros H. apply startswith_true in H as [line ->]. reflexivity.
  - intros H _. apply startswith_true in H as [line ->]. reflexivity.
  - by vm_compute.
  - by vm_compute.
  - by vm_compute.
Qed.

Lemma C5_heading_levels_witness :
  let open_list :=
    {| current_list_type := Some bullet; list_items := [lit "a"; lit "b"] |} in
  scan_lines [lit "## Title"] open_list [Heading (lit "T") 0 (Some CENTER)] =
    Ok [Heading (lit "T") 0 (Some CENTER);
        formatted ListBullet (lit "a"); formatted ListBullet (lit "b");
        Heading (lit "Title") 1 None] ∧
  scan_lines [lit "### Deep"] open_list [] =
    Ok [formatted ListBullet (lit "a"); formatted ListBullet (lit "b");
        Heading (lit "Deep") 2 None] ∧
  scan_lines [lit "# Top"] open_list [] =
    Ok [formatted ListBullet (lit "a"); formatted ListBullet (lit "b");
        Heading (lit "Top") 0 None].
Proof.
  intros open_list. split; [|split].
  - apply (C5_heading_levels (lit "## Title") [] open_list
             [Heading (lit "T") 0 (Some CENTER)]); reflexivity.
  - apply (C5_heading_levels (lit "### Deep") [] open_list []); reflexivity.
  - apply (C5_heading_levels (lit "# Top") [] open_list []); reflexivity.
Defined.

(** ** Table finalization *)

Lemma elem_of_drop_while {A} (p : A → bool) (c : A) (s : list A) :
  c ∈ s → p c = false → c ∈ drop_while p s.
Proof.
  intros Hin Hp. induction s as [|x s IH]; [done|].
  simpl. destruct (p x) eqn:Hx; [|done].
  apply elem_of_cons in Hin as [->|Hin]; [congruence | by apply IH].
Qed.

Lemma elem_of_strip (c : N) (s : str) :
  c ∈ s → isspace c = false → c ∈ strip s.
Proof.
  intros Hin Hc. unfold strip, rstrip, lstrip.
  apply elem_of_reverse, elem_of_drop_while; [|done].
  by apply elem_of_reverse, elem_of_drop_while.
Qed.

Lemma split_not_nil sep s : split sep s ≠ [].
Proof. destruct s as [|c s]; simpl; [done|]. by repeat case_match. Qed.

Lemma elem_of_split (sep c : N) (s : str) :
  c ∈ s → c ≠ sep → ∃ field, field ∈ split sep s ∧ c ∈ field.
Proof.
  intros Hin Hne. induction s as [|x s IH]; [by apply elem_of_nil in Hin|].
  simpl. destruct (x =? sep) eqn:Hx.
  - apply N.eqb_eq in Hx as ->.
    apply elem_of_cons in Hin as [->|Hin]; [done|].
    destruct (IH Hin) as (f & Hf & Hc). exists f. split; [by right | done].
  - destruct (split sep s) as [|f fs] eqn:Hs; [by destruct (split_not_nil sep s)|].
    apply elem_of_cons in Hin as [->|Hin].
    + exists (x :: f). split; left.
    + destruct (IH Hin) as (g & Hg & Hc).
      apply elem_of_cons in Hg as [->|Hg].
      * exists (x :: f). split; [left | by right].
      * exists g. split; [by right | done].
Qed.

Lemma separator_char_space c : separator_char c = false → isspace c = false.
Proof.
  unfold separator_char. intros H.
  destruct (isspace c); [done | done].
Qed.

Lemma separator_char_pipe c : separator_char c = false → c ≠ PIPE.
Proof.
  unfold separator_char. intros H ->. by rewrite orb_true_r in H.
Qed.

Lemma forallb_false {A} (p : A → bool) (s : list A) :
  forallb p s = false → ∃ c, c ∈ s ∧ p c = false.
Proof.
  induction s as [|x s IH]; simpl; [done|].
  destruct (p x) eqn:Hx; simpl.
  - intros (c & Hc & Hp)%IH. exists c. split; [by right | done].
  - intros _. exists x. split; [left | done].
Qed.

(** A line that is not a separator line and yields cells yields a cell
    with a character that is no separator punctuation. *)
Lemma row_cells_not_punctuation line :
  re_match_separator line = false → row_cells line ≠ [] →
  ∃ cell c, cell ∈ row_cells line ∧ c ∈ cell ∧ separator_char c = false.
Proof.
  intros Hsep Hcells. unfold re_match_separator in Hsep.
  destruct line as [|x line]; [by destruct Hcells|].
  cbn [truthy andb] in Hsep.
  assert (∃ c, c ∈ x :: line ∧ separator_char c = false) as (c & Hc & Hp).
  { by apply forallb_false. }
  destruct (elem_of_split PIPE c (x :: line) Hc (separator_char_pipe c Hp))
    as (field & Hfield & Hcf).
  assert (Hcs : c ∈ strip field)
    by (apply elem_of_strip; [done | by apply separator_char_space]).
  exists (strip field), c. split; [|done].
  unfold row_cells. apply list_elem_of_fmap. exists field. split; [done|].
  apply list_elem_of_filter. split; [|done].
  destruct (strip field); [by apply elem_of_nil in Hcs | done].
Qed.

Lemma parse_rows_origin table_lines :
  Forall (λ row, ∃ line, line ∈ table_lines ∧ re_match_separator line = false
                         ∧ row = row_cells line ∧ row ≠ [])
         (parse_rows table_lines).
Proof.
  induction table_lines as [|line table_lines IH]; simpl; [constructor|].
  assert (Htail : Forall (λ row, ∃ line0, line0 ∈ line :: table_lines
                     ∧ re_match_separator line0 = false
                     ∧ row = row_cells line0 ∧ row ≠ [])
                    (parse_rows table_lines)).
  { revert IH. apply List.Forall_impl. intros row (l0 & H0 & H1).
    exists l0. split; [by right | done]. }
  destruct (re_match_separator line) eqn:Hsep; [done|].
  destruct (row_cells line) as [|cell cells0] eqn:Hcells; [done|].
  constructor; [|done]. exists line. rewrite Hcells. split; [left | done].
Qed.

(** Separator lines contribute no row, wherever they stand. *)
Lemma parse_rows_app l1 l2 : parse_rows (l1 ++ l2) = parse_rows l1 ++ parse_rows l2.
Proof.
  induction l1 as [|line l1 IH]; simpl; [done|].
  destruct (re_match_separator line); [done|].
  destruct (truthy (row_cells line)); [by rewrite IH | done].
Qed.

Lemma grid_from_lookup ncols rows : ∀ i k row,
  rows !! k = Some row →
  grid_from ncols i rows !! k = Some (grid_row ncols (i + k) row).
Proof.
  induction rows as [|r rows IH]; intros i k row Hk; [done|].
  destruct k as [|k]; simpl in *.
  - injection Hk as ->. by rewrite Nat.add_0_r.
  - rewrite (IH (S i) k row Hk). f_equal. f_equal. lia.
Qed.

Lemma grid_from_length ncols rows : ∀ i,
  length (grid_from ncols i rows) = length rows.
Proof. induction rows as [|r rows IH]; intros i; simpl; [done | by rewrite IH]. Qed.

(** C6: separator rows are discarded and leave no trace in the rows; the
    emitted table has as many columns as the longest retained row has
    cells; row [i] of the table holds the cells of retained row [i] in
    order, bold in row 0 only (the header), and the cells beyond a short
    row hold no run at all. *)
Theorem C6_table_finalization table_lines doc :
  let rows := parse_rows table_lines in
  (∀ pre line post, table_lines = pre ++ line :: post →
     re_match_separator line = true →
     rows = parse_rows pre ++ parse_rows post) ∧
  Forall (λ row, ∃ cell c, cell ∈ row ∧ c ∈ cell ∧ separator_char c = false)
         rows ∧
  (rows ≠ [] →
   ∃ t, _add_table_from_markdown table_lines doc =
          Ok (doc ++ [Tbl t; Para (add_paragraph Normal)]) ∧
        length (cells t) = length rows ∧
        Forall (λ row, (length row ≤ cols t)%nat) rows ∧
        (∃ row, row ∈ rows ∧ length row = cols t) ∧
        ∀ i row, rows !! i = Some row →
          ∃ grow, cells t !! i = Some grow ∧ length grow = cols t ∧
            (∀ j c, row !! j = Some c →
               grow !! j = Some [{| text := c; bold := bool_decide (i = 0%nat);
                                    italic := false; color := None;
                                    size := None |}]) ∧
            (∀ j, (length row ≤ j < cols t)%nat → grow !! j = Some [])).
Proof.
  intros rows. subst rows. split; [|split].
  - intros pre line post -> Hsep. rewrite parse_rows_app. simpl.
    by rewrite Hsep.
  - pose proof (parse_rows_origin table_lines) as H. revert H.
    apply List.Forall_impl. intros row (line & _ & Hsep & -> & Hne).
    by apply row_cells_not_punctuation.
  - intros Hne.
    destruct (add_table_from_markdown_spec table_lines doc)
      as [[Hnil _] | (n & _ & _ & Hall & Hmax & Hres)]; [done|].
    eexists. split; [exact Hres|]. cbn [cols cells].
    split; [apply grid_from_length|]. split; [done|]. split; [done|].
    intros i row Hi. exists (grid_row n i row).
    split; [by rewrite (grid_from_lookup n _ 0 i row Hi)|].
    assert (Hlen : (length row ≤ n)%nat).
    { exact (Forall_lookup_1 _ _ _ _ Hall Hi). }
    unfold grid_row. split; [|split].
    + rewrite length_app, length_fmap, length_replicate. lia.
    + intros j c Hj. rewrite lookup_app_l.
      * rewrite list_lookup_fmap, Hj. simpl. unfold cell_run.
        do 3 f_equal. destruct i; done.
      * rewrite length_fmap. by apply lookup_lt_Some in Hj.
    + intros j [Hj1 Hj2]. rewrite lookup_app_r; rewrite length_fmap; [|done].
      apply lookup_replicate_2. lia.
Qed.

Lemma C6_table_finalization_witness :
  parse_rows [lit "| A | B |"; lit "|---|---|"; lit "| 1 |"] =
    parse_rows [lit "| A | B |"] ++ parse_rows [lit "| 1 |"] ∧
  ∃ t grow,
    _add_table_from_markdown
      [lit "| A | B |"; lit "|---|---|"; lit "| 1 |"] [] =
      Ok [Tbl t; Para (add_paragraph Normal)] ∧
    length (cells t) = 2%nat ∧
    cells t !! 1%nat = Some grow ∧
    length grow = cols t ∧
    grow !! 0%nat = Some [add_run (lit "1")].
Proof.
  destruct (C6_table_finalization
              [lit "| A | B |"; lit "|---|---|"; lit "| 1 |"] [])
    as (Hsep & _ & Htable).
  split.
  - apply (Hsep [lit "| A | B |"] (lit "|---|---|") [lit "| 1 |"]);
      reflexivity.
  - destruct Htable as (t & Ht & Hlen & _ & _ & Hcells); [by vm_compute|].
    destruct (Hcells 1%nat [lit "1"]) as (grow & Hrow & Hcols & Hfilled & _);
      [reflexivity|].
    exists t, grow. split; [exact Ht|]. split; [exact Hlen|].
    split; [exact Hrow|]. split; [exact Hcols|].
    apply (Hfilled 0%nat (lit "1")). reflexivity.
Defined.

(** What the comprehension does with a row in general: every cell that
    is empty after trimming is dropped, wherever it stands. *)
Lemma row_cells_drops_every_empty_cell line :
  row_cells line = filter (λ cell, cell ≠ []) (strip <$> split PIPE line) ∧
  [] ∉ row_cells line.
Proof.
  assert (Heq : row_cells line
                = filter (λ cell, cell ≠ []) (strip <$> split PIPE line)).
  { unfold row_cells. induction (split PIPE line) as [|field fields IH];
      [done|].
    rewrite fmap_cons, !filter_cons, <- IH.
    destruct (strip field) eqn:Hs; repeat case_decide; try done.
    by rewrite fmap_cons, Hs. }
  split; [done|]. rewrite Heq. intros [H _]%list_elem_of_filter. done.
Qed.

(** C7 (defect of the code): the empty cell in the middle of a row is
    not kept.  [| a |  | b |] splits into five fields of which the
    comprehension keeps [a] and [b] only, so under the header
    [| X | Y | Z |] the table, filled by column index, shows [b] in the
    column of [Y] and nothing in the column of [Z]. *)
Theorem C7_interior_empty_cell_shifts_the_row :
  split PIPE (lit "| a |  | b |") = [[]; lit " a "; lit "  "; lit " b "; []] ∧
  row_cells (lit "| a |  | b |") = [lit "a"; lit "b"] ∧
  row_cells (lit "| a |  | b |") ≠ [lit "a"; []; lit "b"] ∧
  _add_table_from_markdown [lit "| X | Y | Z |"; lit "| a |  | b |"] [] =
    Ok [ Tbl {| cols := 3;
                cells := [ [ [cell_run 0 (lit "X")]; [cell_run 0 (lit "Y")];
                             [cell_run 0 (lit "Z")] ];
                           [ [cell_run 1 (lit "a")]; [cell_run 1 (lit "b")];
                             [] ] ] |};
         Para (add_paragraph Normal) ].
Proof. by_evaluation. Qed.

(** C10: a table run whose lines are all separator lines, or lines
    without any non-empty cell, adds nothing to the document, neither a
    table nor the paragraph after one; in the scan the whole run leaves no
    block behind. *)
Theorem C10_empty_table_vanishes raw more rest l doc :
  opens_table (strip raw) = true →
  Forall (λ next, has_pipe next = true) more →
  match rest with [] => True | next :: _ => has_pipe next = false end →
  Forall (λ line, re_match_separator line = true ∨ row_cells line = [])
         (strip raw :: (strip <$> more)) →
  parse_rows (strip raw :: (strip <$> more)) = [] ∧
  _add_table_from_markdown (strip raw :: (strip <$> more)) doc = Ok doc ∧
  scan_lines (raw :: more ++ rest) l doc =
    scan_lines rest (flush_locals l) (flush_list l doc).
Proof.
  intros Hopen Hmore Hrest Hall.
  assert (Hrows : parse_rows (strip raw :: (strip <$> more)) = []).
  { induction Hall as [|line table_lines Hline _ IH]; [done|].
    cbn [parse_rows]. destruct Hline as [-> | ->]; [done|].
    cbn [truthy]. by destruct (re_match_separator line). }
  assert (Hadd : ∀ d, _add_table_from_markdown (strip raw :: (strip <$> more)) d
                      = Ok d).
  { intros d.
    destruct (add_table_from_markdown_spec (strip raw :: (strip <$> more)) d)
      as [[_ H] | (n & Hne & _)]; [done | by destruct Hne]. }
  split; [done|]. split; [done|].
  rewrite scan_lines_table_run by done. by rewrite Hadd.
Qed.

Lemma C10_empty_table_vanishes_witness :
  parse_rows [lit "|---|---|"; lit "| : | - |"] = [] ∧
  _add_table_from_markdown [lit "|---|---|"; lit "| : | - |"] [] = Ok [] ∧
  scan_lines [lit "|---|---|"; lit " | : | - |"; lit "text"] no_list [] =
    scan_lines [lit "text"] no_list [].
Proof.
  apply (C10_empty_table_vanishes
           (lit "|---|---|") [lit " | : | - |"] [lit "text"] no_list []).
  - reflexivity.
  - repeat constructor.
  - reflexivity.
  - repeat constructor.
Defined.


(** * Further properties of the generator *)

(** ** The pattern of the formatter *)

(** Case analysis on a code point down to the bits of an ASCII character,
    for the literal patterns of the matchers. *)
Ltac char_cases c :=
  destruct c as [|c]; [try done|];
  do 7 (try (destruct c as [c|c|]; try done)).

Lemma take_drop_while {A} (p : A → bool) (s : list A) :
  take_while p s ++ drop_while p s = s.
Proof.
  induction s as [|c s IH]; simpl; [done|].
  destruct (p c); simpl; [by rewrite IH | done].
Qed.

Lemma drop_take_while {A} (p : A → bool) (s : list A) :
  drop (length (take_while p s)) s = drop_while p s.
Proof.
  rewrite <- (take_drop_while p s) at 2. by rewrite drop_app_length.
Qed.

Lemma lazy_until_split delim : ∀ s inner rest,
  lazy_until delim s = Some (inner, rest) → s = inner ++ delim ++ rest.
Proof.
  induction s as [|c s IH]; intros inner rest; simpl.
  - destruct (startswith delim []) eqn:Hd; [|done].
    intros [= <- <-]. apply startswith_true in Hd as [s' Hs].
    rewrite Hs at 1. simpl. f_equal. by rewrite Hs, drop_app_length.
  - destruct (startswith delim (c :: s)) eqn:Hd.
    + intros [= <- <-]. apply startswith_true in Hd as [s' Hs].
      rewrite Hs. simpl. by rewrite drop_app_length.
    + destruct (c =? LF); [done|].
      destruct (lazy_until delim s) as [[i r]|] eqn:Hl; [|done].
      intros [= <- <-]. by rewrite (IH i r eq_refl).
Qed.

Lemma match_bold_eq s :
  match_bold s =
  if startswith [STAR; STAR] s then
    match lazy_until [STAR; STAR] (drop 2 s) with
    | Some (inner, _) => Some ([STAR; STAR] ++ inner ++ [STAR; STAR])
    | None => None
    end
  else None.
Proof.
  destruct s as [|c [|d s]]; [done| |].
  - char_cases c.
  - char_cases c. char_cases d.
Qed.

Lemma match_italic_eq s :
  match_italic s =
  if startswith [STAR] s then
    let inner := take_while (λ c, negb (c =? STAR)) (drop 1 s) in
    if truthy inner && startswith [STAR] (drop (length inner) (drop 1 s))
    then Some ([STAR] ++ inner ++ [STAR]) else None
  else None.
Proof.
  destruct s as [|c s]; [done|]. char_cases c.
  cbn [startswith andb drop match_italic]. cbv zeta.
  change (drop 0 s) with s. change (STAR =? 42) with true. cbn [andb].
  destruct (take_while (λ c, negb (c =? STAR)) s) as [|i inner]; [done|].
  cbn [truthy andb].
  destruct (drop (length (i :: inner)) s) as [|d rest]; [done|].
  char_cases d.
Qed.

Lemma match_formula_eq s :
  match_formula s =
  if startswith [DOLLAR] s then
    match lazy_until [DOLLAR] (drop 1 s) with
    | Some (inner, _) => Some ([DOLLAR] ++ inner ++ [DOLLAR])
    | None => None
    end
  else None.
Proof. destruct s as [|c s]; [done|]. char_cases c. Qed.

Lemma match_bold_prefix s m :
  match_bold s = Some m → ∃ rest, s = m ++ rest ∧ (2 ≤ length m)%nat.
Proof.
  rewrite match_bold_eq. destruct (startswith [STAR; STAR] s) eqn:Hb; [|done].
  apply startswith_true in Hb as [s' ->].
  change (drop 2 ([STAR; STAR] ++ s')) with s'.
  destruct (lazy_until [STAR; STAR] s') as [[inner rest]|] eqn:Hl; [|done].
  intros [= Hm]. subst m. apply lazy_until_split in Hl as ->.
  exists rest.
  split; [simpl; by rewrite <- ?(assoc_L (++)) | simpl; rewrite ?length_app; simpl; lia].
Qed.

Lemma match_italic_prefix s m :
  match_italic s = Some m → ∃ rest, s = m ++ rest ∧ (2 ≤ length m)%nat.
Proof.
  rewrite match_italic_eq. destruct (startswith [STAR] s) eqn:Hi; [|done].
  apply startswith_true in Hi as [s' ->].
  change (drop 1 ([STAR] ++ s')) with s'. cbv zeta.
  destruct (truthy _ && _) eqn:Hc; [|done].
  intros [= Hm]. subst m. apply andb_prop in Hc as [_ Hc].
  apply startswith_true in Hc as [rest Hrest].
  exists rest. split; [|simpl; rewrite length_app; simpl; lia].
  rewrite drop_take_while in Hrest.
  rewrite <- (take_drop_while (λ c, negb (c =? STAR)) s') at 1.
  rewrite Hrest. simpl. by rewrite <- ?(assoc_L (++)).
Qed.

Lemma match_formula_prefix s m :
  match_formula s = Some m → ∃ rest, s = m ++ rest ∧ (2 ≤ length m)%nat.
Proof.
  rewrite match_formula_eq. destruct (startswith [DOLLAR] s) eqn:Hf; [|done].
  apply startswith_true in Hf as [s' ->].
  change (drop 1 ([DOLLAR] ++ s')) with s'.
  destruct (lazy_until [DOLLAR] s') as [[inner rest]|] eqn:Hl; [|done].
  intros [= Hm]. subst m. apply lazy_until_split in Hl as ->.
  exists rest.
  split; [simpl; by rewrite <- ?(assoc_L (++)) | simpl; rewrite ?length_app; simpl; lia].
Qed.

(** A match is a prefix of the text it is found in, two characters long
    at least. *)
Lemma match_pattern_prefix s m :
  match_pattern s = Some m → ∃ rest, s = m ++ rest ∧ (2 ≤ length m)%nat.
Proof.
  unfold match_pattern.
  destruct (match_bold s) as [b|] eqn:Hb.
  { intros [= <-]. by apply match_bold_prefix. }
  destruct (match_italic s) as [i|] eqn:Hi.
  { intros [= <-]. by apply match_italic_prefix. }
  apply match_formula_prefix.
Qed.

(** [re.split] loses nothing: its parts, put together, are the text. *)
Lemma re_split_from_concat : ∀ s pending skip,
  (skip ≤ length s)%nat →
  concat (re_split_from pending skip s) = pending ++ drop skip s.
Proof.
  induction s as [|c s IH]; intros pending skip Hskip.
  - simpl in *. assert (skip = 0%nat) as -> by lia. by rewrite !app_nil_r.
  - destruct skip as [|skip]; cbn [re_split_from].
    + destruct (match_pattern (c :: s)) as [m|] eqn:Hm.
      * destruct (match_pattern_prefix _ _ Hm) as (rest & Hs & Hlen).
        destruct m as [|c' m]; [simpl in Hlen; lia|].
        injection Hs as <- ->.
        cbn [concat]. rewrite IH by (simpl; rewrite length_app; lia).
        simpl. rewrite Nat.sub_0_r, drop_app_length. done.
      * rewrite IH by lia. simpl. by rewrite <- (assoc_L (++)).
    + rewrite IH by (simpl in Hskip; lia). done.
Qed.

Lemma re_split_concat t : concat (re_split t) = t.
Proof. unfold re_split. by rewrite re_split_from_concat by lia. Qed.

(** ** What the formatter keeps and what it strips *)

Lemma format_runs fragment : format fragment = omap format_part (re_split fragment).
Proof. reflexivity. Qed.

Lemma slice_inner_sublist a b (s : str) : slice_inner a b s `sublist_of` s.
Proof.
  unfold slice_inner. etrans; [apply sublist_take | apply sublist_drop].
Qed.

Lemma format_part_sublist part :
  match format_part part with
  | Some r => text r `sublist_of` part
  | None => part = []
  end.
Proof.
  unfold format_part. destruct part as [|c part]; [done|]. cbn [truthy negb].
  repeat match goal with
         | |- context [if ?b then _ else _] => destruct b
         end; simpl; first [apply slice_inner_sublist | reflexivity].
Qed.

(** At the level of the calls: the text of the runs the formatter asks
    for, read in order, is the fragment with some characters left out. *)
Lemma format_sublist fragment :
  runs_text (format fragment) `sublist_of` fragment.
Proof.
  rewrite format_runs. rewrite <- (re_split_concat fragment) at 2.
  unfold runs_text. induction (re_split fragment) as [|part parts IH]; [done|].
  change (omap format_part (part :: parts))
    with (match format_part part with
          | Some r => r :: omap format_part parts
          | None => omap format_part parts
          end).
  pose proof (format_part_sublist part) as Hp.
  destruct (format_part part) as [r|]; simpl.
  - by apply sublist_app.
  - subst part. done.
Qed.

Lemma Forall_sublist {A} (P : A → Prop) (s t : list A) :
  s `sublist_of` t → Forall P t → Forall P s.
Proof.
  induction 1 as [|x s t _ IH|x s t _ IH]; intros H; [done| |].
  - inversion H; subst. constructor; auto.
  - inversion H; subst. auto.
Qed.

Lemma forallb_Forall {A} (p : A → bool) (s : list A) :
  forallb p s = true ↔ Forall (λ x, p x = true) s.
Proof.
  induction s as [|x s IH]; simpl.
  - split; [constructor | done].
  - rewrite andb_true_iff, IH. split.
    + intros [??]. by constructor.
    + by inversion 1.
Qed.

(** Every run the formatter asks for holds characters of the fragment
    only. *)
Lemma format_texts (Q : N → Prop) fragment :
  Forall Q fragment → Forall (Forall Q) (text <$> format fragment).
Proof.
  intros H. rewrite format_runs.
  rewrite <- (re_split_concat fragment) in H. apply Forall_concat in H.
  induction H as [|part parts Hp _ IH]; [constructor|].
  change (omap format_part (part :: parts))
    with (match format_part part with
          | Some r => r :: omap format_part parts
          | None => omap format_part parts
          end).
  pose proof (format_part_sublist part) as Hs.
  destruct (format_part part) as [r|]; [|done].
  rewrite fmap_cons. constructor; [|done]. by apply (Forall_sublist _ _ part).
Qed.

Lemma runs_text_read_back rs :
  runs_text (read_back_run <$> rs) = read_back (runs_text rs).
Proof.
  unfold runs_text, read_back. induction rs as [|r rs IH]; [done|].
  simpl. rewrite fmap_app. by f_equal.
Qed.

Lemma xml_compatible_Forall t :
  xml_compatible t = true ↔ Forall (λ c, xml_char c = true) t.
Proof. apply forallb_Forall. Qed.

(** A fragment python-docx can write gives runs it can write. *)
Lemma format_accepted fragment :
  xml_compatible fragment = true →
  forallb xml_compatible (text <$> format fragment) = true.
Proof.
  intros H. apply forallb_Forall.
  apply xml_compatible_Forall, (format_texts _ fragment) in H.
  revert H. apply List.Forall_impl. intros t. apply xml_compatible_Forall.
Qed.

(** The formatter only deletes, up to the line ends python-docx stores as
    breaks: when [_add_formatted_text] returns, the paragraph has its
    former runs and then new ones, whose text as python-docx gives it
    back, read in order, is the fragment with every carriage return read
    as a line feed and some characters left out; no other character is
    added, changed or moved.  When it raises, it raises [ValueError] and
    the fragment holds a character python-docx cannot write. *)
Theorem format_only_deletes p fragment :
  match Docx._add_formatted_text p fragment with
  | Ok p' =>
      ∃ rs, p' = with_runs p (runs p ++ rs) ∧
            runs_text rs `sublist_of` read_back fragment
  | Raise e => e = ValueError ∧ xml_compatible fragment = false
  end.
Proof.
  unfold Docx._add_formatted_text.
  destruct (forallb xml_compatible (text <$> format fragment)) eqn:Hacc.
  - exists (read_back_run <$> format fragment). split; [done|].
    rewrite runs_text_read_back. apply fmap_sublist, format_sublist.
  - split; [done|]. destruct (xml_compatible fragment) eqn:Hc; [|done].
    apply format_accepted in Hc. congruence.
Qed.

Lemma startswith_head_ne (d : N) (delim s : str) (c : N) :
  c ≠ d → startswith (d :: delim) (c :: s) = false.
Proof. intros Hne. simpl. by apply N.eqb_neq in Hne; rewrite N.eqb_sym, Hne. Qed.

Lemma match_pattern_plain_head c s :
  c ≠ STAR → c ≠ DOLLAR → match_pattern (c :: s) = None.
Proof.
  intros Hs Hd. unfold match_pattern.
  rewrite match_bold_eq, match_italic_eq, match_formula_eq.
  by rewrite !startswith_head_ne.
Qed.

Lemma re_split_from_plain : ∀ s pending rest,
  delimiter_free s →
  re_split_from pending 0 (s ++ rest) = re_split_from (pending ++ s) 0 rest.
Proof.
  induction s as [|c s IH]; intros pending rest [Hs Hd].
  - by rewrite app_nil_r.
  - apply not_elem_of_cons in Hs as [Hs1 Hs2].
    apply not_elem_of_cons in Hd as [Hd1 Hd2].
    cbn [app re_split_from].
    rewrite match_pattern_plain_head by done.
    rewrite IH by done. by rewrite <- (assoc_L (++)).
Qed.

Lemma re_split_from_skip : ∀ (m : str) pending rest,
  re_split_from pending (length m) (m ++ rest) = re_split_from pending 0 rest.
Proof.
  induction m as [|c m IH]; intros pending rest; [done|].
  cbn [app length re_split_from]. apply IH.
Qed.

(** A span between two stretches of text without delimiters is split off
    exactly. *)
Lemma re_split_span pre m post :
  delimiter_free pre → delimiter_free post →
  match_pattern (m ++ post) = Some m →
  re_split (pre ++ m ++ post) = [pre; m; post].
Proof.
  intros Hpre Hpost Hm. unfold re_split.
  rewrite re_split_from_plain by done. cbn [app].
  destruct (match_pattern_prefix _ _ Hm) as (_ & _ & Hlen).
  destruct m as [|c m]; [simpl in Hlen; lia|].
  cbn [app re_split_from]. change (c :: m ++ post) with ((c :: m) ++ post).
  rewrite Hm.
  replace (length (c :: m) - 1)%nat with (length m) by (simpl; lia).
  rewrite re_split_from_skip.
  rewrite <- (app_nil_r post) at 1. rewrite re_split_from_plain by done.
  done.
Qed.

Lemma format_part_plain (t : str) :
  delimiter_free t → option_list (format_part t) = plain_runs t.
Proof.
  intros [Hs Hd]. destruct t as [|c t]; [done|].
  apply not_elem_of_cons in Hs as [Hs _].
  apply not_elem_of_cons in Hd as [Hd _].
  unfold format_part. cbn [truthy negb].
  change (lit "**") with [STAR; STAR]. change (lit "*") with [STAR].
  change (lit "$") with [DOLLAR].
  by rewrite !startswith_head_ne.
Qed.

Lemma omap_three {A B} (f : A → option B) (x y z : A) :
  omap f [x; y; z] = option_list (f x) ++ option_list (f y) ++ option_list (f z).
Proof.
  change (omap f [x; y; z])
    with (match f x with
          | Some a => a :: match f y with
                           | Some b => b :: match f z with
                                            | Some c => [c] | None => [] end
                           | None => match f z with
                                     | Some c => [c] | None => [] end
                           end
          | None => match f y with
                    | Some b => b :: match f z with
                                     | Some c => [c] | None => [] end
                    | None => match f z with
                              | Some c => [c] | None => [] end
                    end
          end).
  by destruct (f x), (f y), (f z).
Qed.

(** At the level of the calls: text without [*] and [$] is asked for as
    it is, in one plain run (no run for the empty text). *)
Lemma format_plain fragment :
  delimiter_free fragment → format fragment = plain_runs fragment.
Proof.
  intros Hfree. rewrite format_runs. unfold re_split.
  rewrite <- (app_nil_r fragment) at 1.
  rewrite re_split_from_plain by done. cbn [app re_split_from].
  rewrite <- (format_part_plain fragment Hfree).
  change (omap format_part [fragment])
    with (match format_part fragment with Some r => [r] | None => [] end).
  by destruct (format_part fragment).
Qed.

(** Text without [*] and [$]: when python-docx can write every character
    of it, the paragraph gets one plain run whose text reads back as the
    fragment with every carriage return read as a line feed (no run for
    the empty text); otherwise [_add_formatted_text] raises
    [ValueError]. *)
Theorem format_plain_text p fragment :
  delimiter_free fragment →
  Docx._add_formatted_text p fragment =
    if xml_compatible fragment
    then Ok (with_runs p (runs p ++ plain_runs (read_back fragment)))
    else Raise ValueError.
Proof.
  intros Hfree. unfold Docx._add_formatted_text. rewrite format_plain by done.
  destruct fragment as [|c s]; [done|].
  cbn [plain_runs fmap list_fmap forallb text add_run].
  rewrite andb_true_r. destruct (xml_compatible (c :: s)); reflexivity.
Qed.

(** Absence of a character, checked by running over the text. *)
Lemma absent_check (c : N) (s : str) :
  forallb (λ x, negb (x =? c)) s = true → c ∉ s.
Proof.
  induction s as [|x s IH]; simpl; [by intros _ ?%elem_of_nil|].
  intros [Hx Hs]%andb_prop. apply not_elem_of_cons. split; [|by apply IH].
  apply negb_true_iff, N.eqb_neq in Hx. done.
Qed.

Lemma delimiter_free_check (t : str) :
  forallb (λ x, negb (x =? STAR)) t && forallb (λ x, negb (x =? DOLLAR)) t = true →
  delimiter_free t.
Proof. intros [H1 H2]%andb_prop. split; by apply absent_check. Qed.

Lemma format_plain_text_witness :
  Docx._add_formatted_text (add_paragraph Normal) (lit "2 + 3" ++ [13] ++ lit "= 5")
  = Ok (with_runs (add_paragraph Normal)
          [add_run (lit "2 + 3" ++ [LF] ++ lit "= 5")]) ∧
  Docx._add_formatted_text (add_paragraph Normal) (lit "a" ++ [0] ++ lit "b")
  = Raise ValueError.
Proof.
  split.
  - apply (format_plain_text (add_paragraph Normal)
             (lit "2 + 3" ++ [13] ++ lit "= 5")).
    apply delimiter_free_check. reflexivity.
  - apply (format_plain_text (add_paragraph Normal) (lit "a" ++ [0] ++ lit "b")).
    apply delimiter_free_check. reflexivity.
Defined.

Lemma lazy_until_found (d : N) (delim : str) : ∀ inner rest,
  d ∉ inner → LF ∉ inner →
  lazy_until (d :: delim) (inner ++ (d :: delim) ++ rest) = Some (inner, rest).
Proof.
  induction inner as [|c inner IH]; intros rest Hd Hlf.
  - assert (Hs : ∀ x, startswith x (x ++ rest) = true).
    { induction x as [|y x IHx]; [done|]. simpl. by rewrite N.eqb_refl. }
    cbn [app lazy_until].
    change (d :: delim ++ rest) with ((d :: delim) ++ rest).
    by rewrite Hs, drop_app_length.
  - apply not_elem_of_cons in Hd as [Hd1 Hd2].
    apply not_elem_of_cons in Hlf as [Hl1 Hl2].
    change ((c :: inner) ++ (d :: delim) ++ rest)
      with (c :: (inner ++ (d :: delim) ++ rest)).
    cbn [lazy_until]. rewrite startswith_head_ne by done.
    apply N.eqb_neq in Hl1. rewrite (N.eqb_sym c LF), Hl1. by rewrite IH.
Qed.

Lemma endswith_app (suffix s : str) : endswith suffix (s ++ suffix) = true.
Proof.
  unfold endswith. rewrite reverse_app.
  induction (reverse suffix) as [|y x IHx]; [done|]. simpl.
  by rewrite N.eqb_refl.
Qed.

(** A bold span between plain text: one bold run with the text between
    the markers, the plain text around it in runs of its own. *)
Theorem format_bold_span pre inner post :
  delimiter_free pre → delimiter_free post →
  STAR ∉ inner → LF ∉ inner →
  format (pre ++ lit "**" ++ inner ++ lit "**" ++ post) =
  plain_runs pre
  ++ [{| text := inner; bold := true; italic := false; color := None;
         size := None |}]
  ++ plain_runs post.
Proof.
  intros Hpre Hpost Hstar Hlf. rewrite format_runs.
  change (lit "**") with [STAR; STAR].
  set (m := [STAR; STAR] ++ inner ++ [STAR; STAR]).
  replace (pre ++ [STAR; STAR] ++ inner ++ [STAR; STAR] ++ post)
    with (pre ++ m ++ post)
    by (unfold m; simpl; by rewrite <- ?(assoc_L (++))).
  assert (Hm : match_pattern (m ++ post) = Some m).
  { unfold match_pattern. rewrite match_bold_eq.
    replace (m ++ post) with ([STAR; STAR] ++ inner ++ [STAR; STAR] ++ post)
      by (unfold m; simpl; by rewrite <- ?(assoc_L (++))).
    change (startswith [STAR; STAR]
              ([STAR; STAR] ++ inner ++ [STAR; STAR] ++ post)) with true.
    change (drop 2 ([STAR; STAR] ++ inner ++ [STAR; STAR] ++ post))
      with (inner ++ [STAR; STAR] ++ post).
    by rewrite lazy_until_found. }
  rewrite re_split_span, omap_three by done.
  rewrite (format_part_plain pre Hpre), (format_part_plain post Hpost).
  assert (Hpart : format_part m
                  = Some {| text := inner; bold := true; italic := false;
                            color := None; size := None |});
    [|by rewrite Hpart].
  unfold format_part, m. cbn [app truthy negb].
  change (lit "**") with [STAR; STAR].
  cbn [startswith]. rewrite !N.eqb_refl. cbn [andb].
  change (STAR :: STAR :: inner ++ [STAR; STAR])
    with (([STAR; STAR] ++ inner) ++ [STAR; STAR]).
  rewrite endswith_app. do 2 f_equal.
  unfold slice_inner. rewrite !length_app. cbn [length app drop].
  replace (2 + length inner + 2 - 2 - 2)%nat with (length inner) by lia.
  change (drop 0 (inner ++ [STAR; STAR])) with (inner ++ [STAR; STAR]).
  by rewrite take_app_length.
Qed.

Lemma format_bold_span_witness :
  format (lit "a **b c** d") =
  [ add_run (lit "a ");
    {| text := lit "b c"; bold := true; italic := false; color := None;
       size := None |};
    add_run (lit " d") ].
Proof.
  apply (format_bold_span (lit "a ") (lit "b c") (lit " d")).
  - apply delimiter_free_check. reflexivity.
  - apply delimiter_free_check. reflexivity.
  - apply absent_check. reflexivity.
  - apply absent_check. reflexivity.
Defined.

Lemma absent_forall (c : N) (s : str) :
  c ∉ s → Forall (λ x, negb (x =? c) = true) s.
Proof.
  intros Hc. apply List.Forall_forall. intros x Hx%list_elem_of_In.
  apply negb_true_iff, N.eqb_neq. by intros ->.
Qed.

(** An italic span between plain text: one italic run. *)
Theorem format_italic_span pre inner post :
  delimiter_free pre → delimiter_free post →
  inner ≠ [] → STAR ∉ inner →
  format (pre ++ lit "*" ++ inner ++ lit "*" ++ post) =
  plain_runs pre
  ++ [{| text := inner; bold := false; italic := true; color := None;
         size := None |}]
  ++ plain_runs post.
Proof.
  intros Hpre Hpost Hne Hstar. rewrite format_runs.
  change (lit "*") with [STAR].
  set (m := [STAR] ++ inner ++ [STAR]).
  replace (pre ++ [STAR] ++ inner ++ [STAR] ++ post) with (pre ++ m ++ post)
    by (unfold m; simpl; by rewrite <- ?(assoc_L (++))).
  destruct inner as [|i inner]; [done|].
  assert (Hi : i ≠ STAR) by (intros ->; apply Hstar; left).
  assert (Hm : match_pattern (m ++ post) = Some m).
  { unfold match_pattern. rewrite match_bold_eq, match_italic_eq.
    replace (m ++ post) with ([STAR] ++ (i :: inner) ++ [STAR] ++ post)
      by (unfold m; simpl; by rewrite <- ?(assoc_L (++))).
    change (startswith [STAR; STAR] ([STAR] ++ (i :: inner) ++ [STAR] ++ post))
      with ((STAR =? STAR) && startswith [STAR] (i :: inner ++ [STAR] ++ post)).
    rewrite startswith_head_ne by done. rewrite andb_false_r.
    change (startswith [STAR] ([STAR] ++ (i :: inner) ++ [STAR] ++ post))
      with true.
    change (drop 1 ([STAR] ++ (i :: inner) ++ [STAR] ++ post))
      with ((i :: inner) ++ [STAR] ++ post).
    cbv zeta.
    destruct (take_drop_while_stop (λ c, negb (c =? STAR)) (i :: inner)
                ([STAR] ++ post)) as [Ht Hd];
      [by apply absent_forall | done |].
    rewrite Ht, drop_app_length. done. }
  rewrite re_split_span, omap_three by done.
  rewrite (format_part_plain pre Hpre), (format_part_plain post Hpost).
  assert (Hpart : format_part m
                  = Some {| text := i :: inner; bold := false; italic := true;
                            color := None; size := None |});
    [|by rewrite Hpart].
  unfold format_part, m. cbn [app truthy negb].
  change (lit "**") with [STAR; STAR]. change (lit "*") with [STAR].
  change (startswith [STAR; STAR] (STAR :: i :: inner ++ [STAR]))
    with ((STAR =? STAR) && startswith [STAR] (i :: inner ++ [STAR])).
  rewrite startswith_head_ne by done. rewrite andb_false_r.
  cbn [andb negb startswith]. rewrite N.eqb_refl. cbn [andb].
  change (STAR :: i :: inner ++ [STAR]) with (([STAR] ++ i :: inner) ++ [STAR]).
  rewrite endswith_app. do 2 f_equal.
  unfold slice_inner. rewrite !length_app. cbn [length app drop].
  replace (1 + S (length inner) + 1 - 1 - 1)%nat with (length (i :: inner))
    by (simpl; lia).
  change (drop 0 (inner ++ [STAR])) with (inner ++ [STAR]).
  change (i :: inner ++ [STAR]) with ((i :: inner) ++ [STAR]).
  by rewrite take_app_length.
Qed.

Lemma format_italic_span_witness :
  format (lit "a *b c* d") =
  [ add_run (lit "a ");
    {| text := lit "b c"; bold := false; italic := true; color := None;
       size := None |};
    add_run (lit " d") ].
Proof.
  apply (format_italic_span (lit "a ") (lit "b c") (lit " d")).
  - apply delimiter_free_check. reflexivity.
  - apply delimiter_free_check. reflexivity.
  - discriminate.
  - apply absent_check. reflexivity.
Defined.

(** A formula span between plain text: one formula run (italic, purple);
    asterisks inside it are kept as text. *)
Theorem format_formula_span pre inner post :
  delimiter_free pre → delimiter_free post →
  DOLLAR ∉ inner → LF ∉ inner →
  format (pre ++ lit "$" ++ inner ++ lit "$" ++ post) =
  plain_runs pre
  ++ [{| text := inner; bold := false; italic := true; color := Some PURPLE;
         size := None |}]
  ++ plain_runs post.
Proof.
  intros Hpre Hpost Hd Hlf. rewrite format_runs.
  change (lit "$") with [DOLLAR].
  set (m := [DOLLAR] ++ inner ++ [DOLLAR]).
  replace (pre ++ [DOLLAR] ++ inner ++ [DOLLAR] ++ post) with (pre ++ m ++ post)
    by (unfold m; simpl; by rewrite <- ?(assoc_L (++))).
  assert (Hm : match_pattern (m ++ post) = Some m).
  { unfold match_pattern.
    rewrite match_bold_eq, match_italic_eq, match_formula_eq.
    replace (m ++ post) with ([DOLLAR] ++ inner ++ [DOLLAR] ++ post)
      by (unfold m; simpl; by rewrite <- ?(assoc_L (++))).
    change (startswith [STAR; STAR] ([DOLLAR] ++ inner ++ [DOLLAR] ++ post))
      with false.
    change (startswith [STAR] ([DOLLAR] ++ inner ++ [DOLLAR] ++ post))
      with false.
    change (startswith [DOLLAR] ([DOLLAR] ++ inner ++ [DOLLAR] ++ post))
      with true.
    change (drop 1 ([DOLLAR] ++ inner ++ [DOLLAR] ++ post))
      with (inner ++ [DOLLAR] ++ post).
    by rewrite lazy_until_found. }
  rewrite re_split_span, omap_three by done.
  rewrite (format_part_plain pre Hpre), (format_part_plain post Hpost).
  assert (Hpart : format_part m
                  = Some {| text := inner; bold := false; italic := true;
                            color := Some PURPLE; size := None |});
    [|by rewrite Hpart].
  unfold format_part, m. cbn [app truthy negb].
  change (lit "**") with [STAR; STAR]. change (lit "*") with [STAR].
  change (lit "$") with [DOLLAR].
  change (startswith [STAR; STAR] (DOLLAR :: inner ++ [DOLLAR])) with false.
  change (startswith [STAR] (DOLLAR :: inner ++ [DOLLAR])) with false.
  change (startswith [DOLLAR] (DOLLAR :: inner ++ [DOLLAR])) with true.
  cbn [andb negb].
  change (DOLLAR :: inner ++ [DOLLAR]) with (([DOLLAR] ++ inner) ++ [DOLLAR]).
  rewrite endswith_app. do 2 f_equal.
  unfold slice_inner. rewrite !length_app. cbn [length app drop].
  replace (1 + length inner + 1 - 1 - 1)%nat with (length inner) by lia.
  change (drop 0 (inner ++ [DOLLAR])) with (inner ++ [DOLLAR]).
  by rewrite take_app_length.
Qed.

Lemma format_formula_span_witness :
  format (lit "f: $a*b$.") =
  [ add_run (lit "f: ");
    {| text := lit "a*b"; bold := false; italic := true; color := Some PURPLE;
       size := None |};
    add_run (lit ".") ].
Proof.
  apply (format_formula_span (lit "f: ") (lit "a*b") (lit ".")).
  - apply delimiter_free_check. reflexivity.
  - apply delimiter_free_check. reflexivity.
  - apply absent_check. reflexivity.
  - apply absent_check. reflexivity.
Defined.

(** ** Lists *)

Lemma scan_bullet_lines raws : ∀ rest l doc,
  Forall (λ raw, startswith (lit "- ") (strip raw) = true) raws →
  scan_lines (raws ++ rest) l doc =
  scan_lines rest
    {| current_list_type :=
         match raws with [] => current_list_type l | _ :: _ => Some bullet end;
       list_items := list_items l ++ ((λ raw, drop 2 (strip raw)) <$> raws) |}
    doc.
Proof.
  induction raws as [|raw raws IH]; intros rest l doc Hall.
  - simpl. rewrite app_nil_r. by destruct l.
  - inversion Hall as [|? ? Hraw Hraws]; subst.
    cbn [app]. rewrite bullet_lines_gather by done. rewrite IH by done.
    f_equal. unfold append_item. cbn [list_items current_list_type fmap list_fmap].
    rewrite <- (assoc_L (++)). by destruct raws.
Qed.

(** A text made of bullet lines only becomes one list: a [List Bullet]
    paragraph per line, in order, each holding the formatted text after
    the marker, and nothing else. *)
Theorem bullet_lines_make_one_list raws doc :
  Forall (λ raw, startswith (lit "- ") (strip raw) = true) raws →
  scan_lines raws no_list doc =
  Ok (doc ++ ((λ raw, formatted ListBullet (drop 2 (strip raw))) <$> raws)).
Proof.
  intros Hall. rewrite <- (app_nil_r raws) at 1.
  rewrite scan_bullet_lines by done. cbn [scan_lines]. f_equal.
  unfold flush_list. cbn [list_items current_list_type no_list app].
  destruct raws as [|raw raws]; [by rewrite app_nil_r|].
  rewrite fmap_cons. cbn [truthy]. rewrite add_list_closed_form.
  f_equal. rewrite !fmap_cons. f_equal. by rewrite <- list_fmap_compose.
Qed.

Lemma bullet_lines_make_one_list_witness :
  scan_lines [lit "- a"; lit "  - **b**"] no_list [] =
  Ok [formatted ListBullet (lit "a"); formatted ListBullet (lit "**b**")].
Proof.
  apply (bullet_lines_make_one_list [lit "- a"; lit "  - **b**"] []).
  repeat constructor.
Defined.

(** ** Line breaks and blanks around lines *)

Lemma flush_list_flushed l doc : flush_list (flush_locals l) doc = doc.
Proof.
  unfold flush_list, flush_locals.
  destruct (list_items l) eqn:Hl; simpl; [by rewrite Hl | done].
Qed.

Lemma take_drop_while_snoc {A} (p : A → bool) (s : list A) (x : A) :
  p x = false →
  take_while p (s ++ [x]) = take_while p s ∧
  drop_while p (s ++ [x]) = drop_while p s ++ [x].
Proof.
  intros Hx. induction s as [|c s [IH1 IH2]]; simpl.
  - by rewrite Hx.
  - destruct (p c); [by rewrite IH1, IH2 | done].
Qed.

Lemma split_snoc_sep (sep : N) (t : str) :
  split sep (t ++ [sep]) = split sep t ++ [[]].
Proof.
  induction t as [|c t IH]; simpl.
  - by rewrite N.eqb_refl.
  - rewrite IH. destruct (c =? sep); [done|].
    destruct (split sep t) as [|f fs] eqn:Hs; [by destruct (split_not_nil sep t)|].
    done.
Qed.

Lemma scan_lines_trailing_blank : ∀ n lines, (length lines ≤ n)%nat → ∀ l doc,
  scan_lines (lines ++ [[]]) l doc = scan_lines lines l doc.
Proof.
  induction n as [|n IH]; intros lines Hlen l doc.
  - destruct lines; [|simpl in Hlen; lia].
    cbn [app]. rewrite scan_lines_cons. simpl. by rewrite flush_list_flushed.
  - destruct lines as [|raw rest].
    { cbn [app]. rewrite scan_lines_cons. simpl. by rewrite flush_list_flushed. }
    simpl in Hlen. assert (Hrest : (length rest ≤ n)%nat) by lia.
    cbn [app]. rewrite !scan_lines_cons. cbv zeta.
    repeat match goal with
           | |- (if ?b then _ else _) = _ => destruct b; [by apply IH|]
           end.
    destruct (contains _ _).
    { destruct (re_search_diagram _); by apply IH. }
    destruct (_ && _); [|by apply IH].
    destruct (take_drop_while_snoc has_pipe rest []) as [-> ->]; [done|].
    destruct (_add_table_from_markdown _ _) as [doc'|e]; [|done].
    cbn [bind]. apply IH.
    pose proof (drop_while_length has_pipe rest). lia.
Qed.

(** A line break at the end of the text changes nothing. *)
Theorem trailing_line_break_is_ignored t doc :
  _process_content (t ++ [LF]) doc = _process_content t doc.
Proof.
  unfold _process_content. rewrite split_snoc_sep.
  by apply (scan_lines_trailing_blank (length (split LF t))).
Qed.

Lemma elem_of_drop_while_inv {A} (p : A → bool) (c : A) (s : list A) :
  c ∈ drop_while p s → c ∈ s.
Proof.
  induction s as [|x s IH]; simpl; [done|].
  destruct (p x); [|done]. intros H. right. by apply IH.
Qed.

Lemma elem_of_strip_inv (c : N) (s : str) : c ∈ strip s → c ∈ s.
Proof.
  unfold strip, rstrip, lstrip.
  intros H. rewrite elem_of_reverse in H.
  apply elem_of_drop_while_inv in H. rewrite elem_of_reverse in H.
  by apply elem_of_drop_while_inv in H.
Qed.

Lemma has_pipe_strip (s : str) : has_pipe (strip s) = has_pipe s.
Proof.
  destruct (has_pipe s) eqn:Hs.
  - apply has_pipe_elem. apply has_pipe_elem in Hs.
    by apply elem_of_strip.
  - destruct (has_pipe (strip s)) eqn:Hs'; [|done].
    apply has_pipe_elem, elem_of_strip_inv, has_pipe_elem in Hs'. congruence.
Qed.

Lemma take_drop_while_Forall2 {A} (R : A → A → Prop) (p : A → bool) s s' :
  (∀ a b, R a b → p a = p b) → Forall2 R s s' →
  Forall2 R (take_while p s) (take_while p s') ∧
  Forall2 R (drop_while p s) (drop_while p s').
Proof.
  intros Hp H. induction H as [|a b s s' Hab H [IH1 IH2]]; simpl; [done|].
  rewrite <- (Hp a b Hab). destruct (p a).
  - split; [by constructor | done].
  - split; [constructor | by constructor].
Qed.

Lemma scan_lines_trimmed : ∀ n lines lines', (length lines ≤ n)%nat →
  Forall2 (λ a b, strip a = strip b) lines lines' → ∀ l doc,
  scan_lines lines l doc = scan_lines lines' l doc.
Proof.
  induction n as [|n IH]; intros lines lines' Hlen Hall l doc.
  - destruct Hall; [done | simpl in Hlen; lia].
  - destruct Hall as [|raw raw' rest rest' Hraw Hrest]; [done|].
    simpl in Hlen. assert (Hn : (length rest ≤ n)%nat) by lia.
    rewrite !scan_lines_cons. cbv zeta. rewrite <- Hraw.
    repeat match goal with
           | |- (if ?b then _ else _) = _ => destruct b; [by apply IH|]
           end.
    destruct (contains _ _).
    { destruct (re_search_diagram _); by apply IH. }
    destruct (_ && _); [|by apply IH].
    destruct (take_drop_while_Forall2 (λ a b, strip a = strip b)
                has_pipe rest rest') as [Ht Hd]; [|exact Hrest|].
    { intros a b Hab. by rewrite <- (has_pipe_strip a), Hab, has_pipe_strip. }
    assert (Hmap : strip <$> take_while has_pipe rest
                   = strip <$> take_while has_pipe rest').
    { clear -Ht. induction Ht as [|a b s s' Hab _ IHt]; [done|].
      rewrite !fmap_cons. by rewrite Hab, IHt. }
    rewrite Hmap.
    destruct (_add_table_from_markdown _ _) as [doc'|e]; [|done].
    cbn [bind]. apply IH; [|done].
    pose proof (drop_while_length has_pipe rest). lia.
Qed.

(** Blanks around a line do not count: two texts whose lines are the same
    once trimmed give the same document, so indentation carries no
    meaning. *)
Theorem indentation_is_ignored t t' doc :
  Forall2 (λ a b, strip a = strip b) (split LF t) (split LF t') →
  _process_content t doc = _process_content t' doc.
Proof.
  intros H. unfold _process_content.
  by apply (scan_lines_trimmed (length (split LF t))).
Qed.

Lemma indentation_is_ignored_witness :
  _process_content (lit "  - a " ++ [LF] ++ lit "   ## T") [] =
  _process_content (lit "- a" ++ [LF] ++ lit "## T") [].
Proof.
  apply (indentation_is_ignored
           (lit "  - a " ++ [LF] ++ lit "   ## T")
           (lit "- a" ++ [LF] ++ lit "## T") []).
  repeat constructor.
Defined.

(** ** Single lines *)

Lemma drop_while_all {A} (p : A → bool) (ws rest : list A) :
  Forall (λ x, p x = true) ws →
  match rest with [] => True | x :: _ => p x = false end →
  drop_while p (ws ++ rest) = rest.
Proof. intros Hws Hrest. by destruct (take_drop_while_stop p ws rest). Qed.

Lemma match_diagram_tag tail :
  match_diagram (lit "[DIAGRAM:" ++ tail) =
  let after := drop_while isspace tail in
  let group1 :=
    take_while (λ c, negb (c =? RBRACKET) && negb (c =? LF)) after in
  match drop (length group1) after with
  | 93 :: _ => Some group1
  | _ => None
  end.
Proof. reflexivity. Qed.

Lemma re_search_diagram_head s g :
  match_diagram s = Some g → re_search_diagram s = Some g.
Proof. intros H. destruct s; cbn [re_search_diagram]; by rewrite H. Qed.

(** A line that is a well-formed diagram tag: the description is the
    text after the colon without its leading blanks, up to the first
    closing bracket; blanks at its end are kept, and what follows the
    bracket on the line is dropped. *)
Theorem diagram_line_gives_placeholder raw ws desc post rest l doc :
  strip raw = lit "[DIAGRAM:" ++ ws ++ desc ++ [RBRACKET] ++ post →
  Forall (λ c, isspace c = true) ws →
  match desc with [] => True | c :: _ => isspace c = false end →
  RBRACKET ∉ desc → LF ∉ desc →
  scan_lines (raw :: rest) l doc =
  scan_lines rest (flush_locals l)
    (_add_diagram_placeholder desc (flush_list l doc)).
Proof.
  intros Hline Hws Hhead Hbr Hlf. rewrite scan_lines_cons. cbv zeta.
  rewrite Hline.
  set (tail := ws ++ desc ++ [RBRACKET] ++ post).
  assert (Hsearch : re_search_diagram (lit "[DIAGRAM:" ++ tail) = Some desc).
  { apply re_search_diagram_head. rewrite match_diagram_tag. cbv zeta.
    unfold tail.
    rewrite (drop_while_all isspace ws (desc ++ [RBRACKET] ++ post)); [|done|].
    2:{ destruct desc; [done | done]. }
    destruct (take_drop_while_stop
                (λ c, negb (c =? RBRACKET) && negb (c =? LF)) desc
                ([RBRACKET] ++ post)) as [Ht _]; [|done|].
    { apply List.Forall_forall. intros x Hx%list_elem_of_In.
      apply andb_true_intro. split; apply negb_true_iff, N.eqb_neq;
        by intros ->. }
    rewrite Ht, drop_app_length. done. }
  rewrite Hsearch. reflexivity.
Qed.

Lemma diagram_line_gives_placeholder_witness :
  scan_lines [lit "[DIAGRAM:  a flow chart ] see above"] no_list [] =
  scan_lines [] no_list (_add_diagram_placeholder (lit "a flow chart ") []).
Proof.
  apply (diagram_line_gives_placeholder
           (lit "[DIAGRAM:  a flow chart ] see above")
           (lit "  ") (lit "a flow chart ") (lit " see above") [] no_list []).
  - reflexivity.
  - repeat constructor.
  - reflexivity.
  - apply absent_check. reflexivity.
  - apply absent_check. reflexivity.
Defined.

Lemma isdecimal_head_plain c :
  isdecimal c = true → c ≠ 35 ∧ c ≠ 45 ∧ c ≠ 0xe2 ∧ c ≠ 62 ∧ c ≠ DOT.
Proof. intros H. repeat split; intros ->; by vm_compute in H. Qed.

(** A numbered line: digits, a period and one blank are the marker; the
    item is all that follows, so further blanks and a second marker stay
    in the item. *)
Theorem numbered_line_gives_item raw digits w item rest l doc :
  strip raw = digits ++ [DOT] ++ [w] ++ item →
  digits ≠ [] → Forall (λ c, isdecimal c = true) digits → isspace w = true →
  scan_lines (raw :: rest) l doc =
  scan_lines rest (append_item numbered item l) doc.
Proof.
  intros Hline Hne Hdigits Hw. rewrite scan_lines_cons. cbv zeta.
  rewrite Hline. destruct digits as [|d digits]; [done|].
  inversion Hdigits as [|? ? Hd Hds]; subst.
  destruct (isdecimal_head_plain d Hd) as (H35 & H45 & He2 & H62 & _).
  cbn [app truthy negb].
  change (lit "## ") with [35; 35; 32]. change (lit "### ") with [35; 35; 35; 32].
  change (lit "# ") with [35; 32]. change (lit "- ") with [45; 32].
  unfold BULLET_GLYPH_SPACE.
  rewrite !startswith_head_ne by done. cbn [andb orb].
  assert (Hrest : numbered_rest (d :: digits ++ DOT :: w :: item) = Some item).
  { unfold numbered_rest.
    destruct (take_drop_while_stop isdecimal (d :: digits) (DOT :: w :: item))
      as [Ht Hdr]; [by constructor | done |].
    cbn [app] in Ht, Hdr. rewrite Ht, Hdr. by rewrite Hw. }
  unfold re_match_numbered, re_sub_numbered. by rewrite Hrest.
Qed.

Lemma numbered_line_gives_item_witness :
  scan_lines [lit "12.  2. x"] no_list [] =
  scan_lines [] (append_item numbered (lit " 2. x") no_list) [].
Proof.
  apply (numbered_line_gives_item (lit "12.  2. x") (lit "12") 32
           (lit " 2. x") [] no_list []).
  - reflexivity.
  - discriminate.
  - repeat constructor.
  - reflexivity.
Defined.

(** A line that starts with the glyph marker of the source (the four
    characters of [BULLET_GLYPH_SPACE]) is a bullet item, but only two
    characters are cut off: the item begins with the last two characters
    of the marker. *)
Theorem glyph_bullet_keeps_half_the_marker raw item rest l doc :
  strip raw = BULLET_GLYPH_SPACE ++ item →
  scan_lines (raw :: rest) l doc =
  scan_lines rest (append_item bullet ([0xa2; 0x20] ++ item) l) doc.
Proof.
  intros Hline. rewrite scan_lines_cons. cbv zeta. rewrite Hline.
  reflexivity.
Qed.

Lemma glyph_bullet_keeps_half_the_marker_witness :
  scan_lines [BULLET_GLYPH_SPACE ++ lit "milk"] no_list [] =
  scan_lines [] (append_item bullet ([0xa2; 0x20] ++ lit "milk") no_list) [].
Proof.
  apply (glyph_bullet_keeps_half_the_marker
           (BULLET_GLYPH_SPACE ++ lit "milk") (lit "milk") [] no_list []).
  reflexivity.
Defined.

(** The fallback: a line whose first character starts no marker (none of
    [#], [-], the glyph, [>], a digit), without the diagram tag and with
    fewer than two pipes, becomes one paragraph holding the trimmed line.
    The open list is flushed first: the pending items come into the
    document as list paragraphs of the pending kind, before the paragraph,
    and the scan goes on with no item pending. *)
Theorem other_lines_become_paragraphs raw c s rest l doc :
  strip raw = c :: s →
  c ≠ 35 → c ≠ 45 → c ≠ 0xe2 → c ≠ 62 → isdecimal c = false →
  contains (lit "[DIAGRAM:") (c :: s) = false →
  (count PIPE (c :: s) < 2)%nat →
  scan_lines (raw :: rest) l doc =
  scan_lines rest
    {| current_list_type :=
         match list_items l with [] => current_list_type l | _ :: _ => None end;
       list_items := [] |}
    (doc ++ (formatted (list_style (current_list_type l)) <$> list_items l)
         ++ [formatted Normal (c :: s)]).
Proof.
  intros Hline H35 H45 He2 H62 Hdec Htag Hpipes.
  rewrite scan_lines_cons. cbv zeta. rewrite Hline.
  cbn [truthy negb].
  change (lit "## ") with [35; 35; 32]. change (lit "### ") with [35; 35; 35; 32].
  change (lit "# ") with [35; 32]. change (lit "- ") with [45; 32].
  change (lit "> ") with [62; 32]. unfold BULLET_GLYPH_SPACE.
  rewrite !startswith_head_ne by done. cbn [andb orb].
  assert (Hnum : re_match_numbered (c :: s) = false).
  { unfold re_match_numbered, numbered_rest. cbn [take_while]. by rewrite Hdec. }
  rewrite Hnum, Htag.
  assert (Hcount : (2 <=? count PIPE (c :: s))%nat = false)
    by (apply Nat.leb_gt; lia).
  rewrite Hcount, andb_false_r.
  unfold _add_paragraph, flush_list, flush_locals.
  destruct l as [lt [|item items]]; cbn [list_items current_list_type truthy].
  - reflexivity.
  - rewrite add_list_closed_form. by rewrite <- !(assoc_L (++)).
Qed.

Lemma other_lines_become_paragraphs_witness :
  scan_lines [lit " Total: a|b "]
    {| current_list_type := Some numbered; list_items := [lit "x"; lit "y"] |}
    [Heading (lit "T") 1 None] =
  Ok [Heading (lit "T") 1 None;
      formatted ListNumber (lit "x"); formatted ListNumber (lit "y");
      formatted Normal (lit "Total: a|b")].
Proof.
  apply (other_lines_become_paragraphs (lit " Total: a|b ") 84 (lit "otal: a|b")
           []
           {| current_list_type := Some numbered;
              list_items := [lit "x"; lit "y"] |}
           [Heading (lit "T") 1 None]); try done.
  vm_compute. lia.
Defined.

(** ** Trimming *)

Lemma drop_while_head {A} (p : A → bool) (s : list A) c s' :
  drop_while p s = c :: s' → p c = false.
Proof.
  induction s as [|x s IH]; simpl; [done|].
  destruct (p x) eqn:Hx; [done|]. by intros [= <- _].
Qed.

Lemma drop_while_idem {A} (p : A → bool) (s : list A) :
  drop_while p (drop_while p s) = drop_while p s.
Proof.
  destruct (drop_while p s) as [|c s'] eqn:Hs; [done|].
  simpl. by rewrite (drop_while_head p s c s' Hs).
Qed.

Lemma rstrip_prefix (s : str) : ∃ tail, s = rstrip s ++ tail.
Proof.
  unfold rstrip. exists (reverse (take_while isspace (reverse s))).
  rewrite <- reverse_app, take_drop_while. by rewrite reverse_involutive.
Qed.

(** A trimmed text neither starts nor ends with a blank. *)
Lemma strip_head (s : str) c s' : strip s = c :: s' → isspace c = false.
Proof.
  unfold strip. intros H.
  destruct (rstrip_prefix (lstrip s)) as [tail Ht]. rewrite H in Ht.
  unfold lstrip in Ht. by apply drop_while_head in Ht.
Qed.

Lemma strip_last (s : str) pre c : strip s = pre ++ [c] → isspace c = false.
Proof.
  unfold strip, rstrip. intros H.
  apply (f_equal reverse) in H. rewrite reverse_involutive, reverse_app in H.
  by apply drop_while_head in H.
Qed.

(** Trimming twice is trimming once. *)
Lemma strip_idem (s : str) : strip (strip s) = strip s.
Proof.
  destruct (strip s) as [|c s'] eqn:Hs; [done|].
  pose proof (strip_head s c s' Hs) as Hc.
  unfold strip at 1. unfold lstrip. cbn [drop_while]. rewrite Hc.
  rewrite <- Hs. unfold strip, rstrip.
  by rewrite reverse_involutive, drop_while_idem.
Qed.

Lemma split_no_sep (sep : N) (s : str) :
  Forall (λ field, sep ∉ field) (split sep s).
Proof.
  induction s as [|c s IH]; simpl.
  - constructor; [by intros ?%elem_of_nil | constructor].
  - destruct (c =? sep) eqn:Hc.
    + constructor; [by intros ?%elem_of_nil | done].
    + destruct (split sep s) as [|f fs]; [repeat constructor|].
      * intros [->|?%elem_of_nil]%elem_of_cons; [|done].
        by rewrite N.eqb_refl in Hc.
      * inversion IH as [|? ? Hf Hfs]; subst. constructor; [|done].
        intros [->|?]%elem_of_cons; [|done]. by rewrite N.eqb_refl in Hc.
Qed.

(** The cells of a table are clean: every cell of every retained row
    has some text, holds no pipe, and has no blank at either end. *)
Theorem table_cells_are_clean table_lines :
  Forall (Forall (λ cell, cell ≠ [] ∧ (PIPE ∉ cell) ∧ strip cell = cell))
         (parse_rows table_lines).
Proof.
  pose proof (parse_rows_origin table_lines) as H. revert H.
  apply List.Forall_impl. intros row (line & _ & _ & -> & _).
  unfold row_cells. apply Forall_fmap, List.Forall_forall.
  intros field [Hne Hin]%list_elem_of_In%list_elem_of_filter. simpl.
  split; [by destruct (strip field)|]. split; [|apply strip_idem].
  intros Hp%elem_of_strip_inv.
  pose proof (split_no_sep PIPE line) as Hsplit.
  rewrite List.Forall_forall in Hsplit.
  by apply (Hsplit field); [apply list_elem_of_In|].
Qed.

(** ** Headings and the whole document *)

Lemma marker_leaves_text raw (marker : str) rest :
  strip raw = marker ++ [32] ++ rest → rest ≠ [].
Proof.
  intros H ->. rewrite app_nil_r in H. by apply strip_last in H.
Qed.

Lemma heading_ok_formatted st items :
  Forall heading_ok (formatted st <$> items).
Proof. apply Forall_fmap, Forall_true. done. Qed.

Lemma heading_ok_flush l doc :
  Forall heading_ok doc → Forall heading_ok (flush_list l doc).
Proof.
  intros H. unfold flush_list. destruct (truthy _); [|done].
  rewrite add_list_closed_form. apply Forall_app. split; [done|].
  apply heading_ok_formatted.
Qed.

Lemma scan_lines_headings : ∀ n lines, (length lines ≤ n)%nat → ∀ l doc doc',
  Forall heading_ok doc → scan_lines lines l doc = Ok doc' →
  Forall heading_ok doc'.
Proof.
  induction n as [|n IH]; intros lines Hlen l doc doc' Hdoc.
  - destruct lines; [|simpl in Hlen; lia].
    simpl. intros [= <-]. by apply heading_ok_flush.
  - destruct lines as [|raw rest].
    { simpl. intros [= <-]. by apply heading_ok_flush. }
    simpl in Hlen. assert (Hn : (length rest ≤ n)%nat) by lia.
    assert (Hgo : ∀ l' (tail : list Block), Forall heading_ok tail →
              scan_lines rest l' (flush_list l doc ++ tail) = Ok doc' →
              Forall heading_ok doc').
    { intros l' tail Htail. apply (IH rest Hn).
      apply Forall_app. split; [by apply heading_ok_flush | done]. }
    rewrite scan_lines_cons. cbv zeta.
    destruct (negb (truthy (strip raw))).
    { apply (IH rest Hn). by apply heading_ok_flush. }
    destruct (startswith (lit "## ") (strip raw) && _) eqn:H2.
    { apply andb_prop in H2 as [[s Hs]%startswith_true _].
      apply Hgo. constructor; [|done]. rewrite Hs. cbn.
      split; [|by auto]. by apply (marker_leaves_text raw [35; 35] s). }
    clear H2.
    destruct (startswith (lit "### ") (strip raw)) eqn:H3.
    { apply startswith_true in H3 as [s Hs].
      apply Hgo. constructor; [|done]. rewrite Hs. cbn.
      split; [|by auto]. by apply (marker_leaves_text raw [35; 35; 35] s). }
    clear H3.
    destruct (startswith (lit "# ") (strip raw) && _) eqn:H1.
    { apply andb_prop in H1 as [[s Hs]%startswith_true _].
      apply Hgo. constructor; [|done]. rewrite Hs. cbn.
      split; [|by auto]. by apply (marker_leaves_text raw [35] s). }
    clear H1.
    destruct (_ || _); [by apply (IH rest Hn)|].
    destruct (re_match_numbered _); [by apply (IH rest Hn)|].
    destruct (startswith (lit "> ") _); [by apply Hgo; repeat constructor|].
    destruct (contains _ _).
    { destruct (re_search_diagram _).
      - by apply Hgo; repeat constructor.
      - apply (IH rest Hn). by apply heading_ok_flush. }
    destruct (_ && _); [|by apply Hgo; repeat constructor].
    destruct (add_table_appends (strip raw :: (strip <$> take_while has_pipe rest)))
      as [tbl Htbl].
    rewrite Htbl. cbn [bind]. apply IH.
    + pose proof (drop_while_length has_pipe rest). lia.
    + apply Forall_app. split; [by apply heading_ok_flush|].
      destruct (add_table_from_markdown_spec
                  (strip raw :: (strip <$> take_while has_pipe rest)) [])
        as [[_ H] | (k & _ & _ & _ & _ & H)];
        rewrite Htbl in H; injection H as H; simpl in H; subst tbl;
        repeat constructor.
Qed.

(** The scan on python-docx: whatever the generator holds, the blocks
    asked for on an empty document are carried out and come after the
    blocks the document has. *)
Lemma scan_requests t : ∃ requested, ∀ doc,
  _process_content t doc = Ok (doc ++ requested).
Proof.
  unfold _process_content.
  apply (scan_lines_appends _ (split LF t) (le_n _) no_list).
Qed.

Lemma process_content_stored self doc t :
  self_document self = Some doc →
  Docx._process_content self t =
  do requested <- _process_content t [];
  do stored <- carry_out requested;
  Ok {| self_document := Some (doc ++ stored) |}.
Proof.
  intros Hdoc. unfold Docx._process_content, Docx.on_document.
  destruct (scan_requests t) as [requested Hreq]. rewrite (Hreq []).
  cbn [bind app]. rewrite Hdoc.
  destruct requested as [|b requested]; [|done].
  cbn. rewrite app_nil_r. destruct self as [d]. simpl in Hdoc. by subst d.
Qed.

Lemma carry_out_raises requested e :
  carry_out requested = Raise e → e = ValueError.
Proof. unfold carry_out. destruct (forallb _ _); congruence. Qed.

Lemma carry_out_stored requested stored :
  carry_out requested = Ok stored → stored = read_back_block <$> requested.
Proof. unfold carry_out. destruct (forallb _ _); congruence. Qed.

Lemma heading_ok_read_back b : heading_ok b → heading_ok (read_back_block b).
Proof.
  destruct b as [t level align| |]; [|done..]. simpl.
  intros [Ht H]. split; [|done]. by destruct t.
Qed.

(** Every heading [_process_content] adds has some text and level 0, 1 or
    2, the levels [document.add_heading] is defined for, and no alignment
    of its own: when the call returns, the document is the one before
    with blocks added at its end, the blocks before left as they are
    (the centred title [create_document] has put there among them), and
    each heading among the added blocks is of that kind. *)
Theorem headings_have_text_and_level self doc t self' :
  self_document self = Some doc →
  Docx._process_content self t = Ok self' →
  ∃ blocks,
    self_document self' = Some (doc ++ blocks) ∧ Forall heading_ok blocks.
Proof.
  intros Hdoc. rewrite (process_content_stored self doc) by done.
  destruct (_process_content t []) as [requested|e] eqn:Hreq; [|done].
  cbn [bind].
  destruct (carry_out requested) as [stored|e] eqn:Hout; [|done].
  cbn [bind]. intros [= <-]. exists stored. split; [done|].
  apply carry_out_stored in Hout as ->.
  apply Forall_fmap.
  assert (H : Forall heading_ok requested).
  { apply (scan_lines_headings (length (split LF t)) (split LF t) (le_n _)
             no_list [] requested); [constructor | exact Hreq]. }
  revert H. apply List.Forall_impl. intros b. apply heading_ok_read_back.
Qed.

Lemma headings_have_text_and_level_witness :
  ∃ blocks,
    Some ([Heading (lit "My title") 0 (Some CENTER)] ++
          [Heading (lit "A") 1 None; Heading (lit "B") 2 None;
           formatted Normal (lit "##")])
    = Some ([Heading (lit "My title") 0 (Some CENTER)] ++ blocks) ∧
    Forall heading_ok blocks.
Proof.
  apply (headings_have_text_and_level
           {| self_document := Some [Heading (lit "My title") 0 (Some CENTER)] |}
           [Heading (lit "My title") 0 (Some CENTER)]
           (lit "## A" ++ [LF] ++ lit "### B" ++ [LF] ++ lit "## ")
           {| self_document :=
                Some ([Heading (lit "My title") 0 (Some CENTER)] ++
                      [Heading (lit "A") 1 None; Heading (lit "B") 2 None;
                       formatted Normal (lit "##")]) |}).
  - reflexivity.
  - by vm_compute.
Defined.

Lemma on_document_title title :
  Docx.on_document {| self_document := Some [] |} [Heading title 0 (Some CENTER)]
  = if xml_compatible title
    then Ok {| self_document := Some [Heading (read_back title) 0 (Some CENTER)] |}
    else Raise ValueError.
Proof.
  unfold Docx.on_document, carry_out. cbn [self_document forallb accepted block_texts].
  rewrite !andb_true_r. by destruct (xml_compatible title).
Qed.

Lemma on_document_separator doc :
  Docx.on_document {| self_document := Some doc |} (_add_separator [])
  = Ok {| self_document := Some (doc ++ _add_separator []) |}.
Proof.
  assert (H : carry_out (_add_separator []) = Ok (_add_separator []))
    by (by vm_compute).
  unfold Docx.on_document. cbn [self_document].
  change ([] ++ ?l) with l. unfold _add_separator at 1. cbn [app].
  fold (_add_separator []). rewrite H. reflexivity.
Qed.

(** [create_document] in closed form. *)
Lemma create_document_stored self t title :
  Docx.create_document self t title =
  if xml_compatible title then
    do requested <- _process_content t [];
    do stored <- carry_out requested;
    Ok ({| self_document :=
             Some (Heading (read_back title) 0 (Some CENTER)
                     :: _add_separator [] ++ stored) |},
        Heading (read_back title) 0 (Some CENTER) :: _add_separator [] ++ stored)
  else Raise ValueError.
Proof.
  unfold Docx.create_document. rewrite on_document_title.
  destruct (xml_compatible title); [|done]. cbn [bind].
  rewrite on_document_separator. cbn [bind].
  erewrite process_content_stored by reflexivity.
  destruct (_process_content t []) as [requested|e]; [|done]. cbn [bind].
  destruct (carry_out requested) as [stored|e]; [|done]. cbn [bind].
  cbn [self_document]. by rewrite <- !(assoc_L (++)).
Qed.

(** [create_document] starts a new document whatever the generator held.
    When it returns, the title is one python-docx can write, and the
    saved document is the centred title (carriage returns read as line
    feeds), the rule, and then exactly the blocks the text gives on an
    empty document: the title has no part in them and the document is
    never empty; the generator holds the saved document, and
    [generate_docx] returns it too.  When it raises, it raises
    [ValueError]: python-docx cannot write the title, or processing the
    text raises; [generate_docx] raises as well. *)
Theorem create_document_layout self t title :
  match Docx.create_document self t title with
  | Ok (self', saved) =>
      ∃ blocks,
        Docx._process_content {| self_document := Some [] |} t
          = Ok {| self_document := Some blocks |} ∧
        xml_compatible title = true ∧
        saved = Heading (read_back title) 0 (Some CENTER)
                  :: _add_separator [] ++ blocks ∧
        self' = {| self_document := Some saved |} ∧
        Docx.generate_docx t title = Ok saved
  | Raise e =>
      e = ValueError ∧
      (xml_compatible title = false ∨
       Docx._process_content {| self_document := Some [] |} t
         = Raise ValueError) ∧
      Docx.generate_docx t title = Raise ValueError
  end.
Proof.
  unfold Docx.generate_docx.
  rewrite (create_document_stored DocxGenerator_init),
    (create_document_stored self).
  rewrite (process_content_stored {| self_document := Some [] |} []) by done.
  destruct (xml_compatible title) eqn:Htitle; [|by auto].
  destruct (scan_requests t) as [requested Hreq]. rewrite (Hreq []).
  cbn [bind app].
  destruct (carry_out requested) as [stored|e] eqn:Hout; cbn [bind snd].
  - exists stored. by auto.
  - apply carry_out_raises in Hout as ->. by auto.
Qed.

(** ** The vision extractor: model registry and constructor *)

Section vision_extractor_properties.
Import vision_extractor.

Lemma get_model_info_cases k :
  (k = lit "GPT-4-Vision" ∧ get_model_info k = GPT_4_VISION) ∨
  (k ≠ lit "GPT-4-Vision" ∧ get_model_info k = QWEN3_VL_8B).
Proof.
  unfold get_model_info, AVAILABLE_MODELS. cbn [dict_get].
  destruct (decide (lit "Qwen3-VL-8B" = k)) as [<-|H1].
  - right. split; [by vm_compute | done].
  - destruct (decide (lit "GPT-4-Vision" = k)) as [<-|H2]; [by left|].
    right. split; [by intros -> | done].
Qed.

Lemma init_qwen env a b k :
  k ≠ lit "GPT-4-Vision" →
  __init__ env a b k =
  if negb (HF_HUB_AVAILABLE env) then
    RuntimeError
      (lit "huggingface_hub not installed. Run: pip install huggingface_hub")
  else
    let token := py_or a (dict_get (environ env) (lit "HF_TOKEN")) in
    Return {| hf_token := token;
              openai_key := py_or b (dict_get (environ env) (lit "OPENAI_API_KEY"));
              model_key := k; self_model_info := QWEN3_VL_8B;
              self_inference_type := lit "huggingface";
              client := Some (InferenceClient (lit "Qwen/Qwen3-VL-8B-Instruct")
                                              token) |}.
Proof.
  intros Hk. unfold __init__.
  destruct (get_model_info_cases k) as [[-> _] | [_ ->]]; [done|].
  reflexivity.
Qed.

Lemma init_gpt env a b :
  __init__ env a b (lit "GPT-4-Vision") =
  let key := py_or b (dict_get (environ env) (lit "OPENAI_API_KEY")) in
  if negb (OPENAI_AVAILABLE env) then
    RuntimeError (lit "openai not installed. Run: pip install openai")
  else if negb (is_set key) then
    RuntimeError
      (lit "OpenAI API key required. Set OPENAI_API_KEY in secrets.toml")
  else
    Return {| hf_token := py_or a (dict_get (environ env) (lit "HF_TOKEN"));
              openai_key := key;
              model_key := lit "GPT-4-Vision"; self_model_info := GPT_4_VISION;
              self_inference_type := lit "openai";
              client := Some (OpenAI key) |}.
Proof. reflexivity. Qed.

(** When the constructor succeeds and when it raises: any key but
    [GPT-4-Vision] needs the Hugging Face library only; [GPT-4-Vision]
    needs the OpenAI library and a non-empty key, given as argument or
    found in the environment. *)
Theorem init_returns_iff env a b k :
  (∃ self, __init__ env a b k = Return self) ↔
  (k ≠ lit "GPT-4-Vision" ∧ HF_HUB_AVAILABLE env = true) ∨
  (k = lit "GPT-4-Vision" ∧ OPENAI_AVAILABLE env = true ∧
   is_set (py_or b (dict_get (environ env) (lit "OPENAI_API_KEY"))) = true).
Proof.
  destruct (decide (k = lit "GPT-4-Vision")) as [->|Hk].
  - rewrite init_gpt. cbv zeta.
    destruct (OPENAI_AVAILABLE env), (is_set _); simpl; split;
      try (intros [self [=]]); try (intros [[? _] | (_ & ? & ?)]; done);
      try (intros _; by eexists); try (by right).
  - rewrite init_qwen by done.
    destruct (HF_HUB_AVAILABLE env); simpl; split;
      try (intros [self [=]]); try (intros [[_ ?] | [? _]]; done);
      try (intros _; by eexists); try (by left).
Qed.

Lemma init_returns_iff_witness :
  ∃ self,
    __init__ {| environ := [(lit "OPENAI_API_KEY", lit "sk-x")];
                HF_HUB_AVAILABLE := false; OPENAI_AVAILABLE := true |}
             None (Some []) (lit "GPT-4-Vision") = Return self.
Proof.
  apply (init_returns_iff
           {| environ := [(lit "OPENAI_API_KEY", lit "sk-x")];
              HF_HUB_AVAILABLE := false; OPENAI_AVAILABLE := true |}
           None (Some []) (lit "GPT-4-Vision")).
  right. repeat split; reflexivity.
Defined.

(** What a constructed extractor holds.  A key that is not in the
    registry, a misspelt one for instance, silently selects the Qwen model
    while [model_key] keeps the key as given; the client always exists and
    fits the inference type; an OpenAI client always has a non-empty key,
    whereas the Hugging Face client may have no token. *)
Theorem init_establishes env a b k self :
  __init__ env a b k = Return self →
  model_key self = k ∧ self_model_info self = get_model_info k ∧
  ((k ≠ lit "GPT-4-Vision" ∧
    self_model_info self = QWEN3_VL_8B ∧
    self_inference_type self = lit "huggingface" ∧
    client self = Some (InferenceClient (lit "Qwen/Qwen3-VL-8B-Instruct")
                                        (hf_token self))) ∨
   (k = lit "GPT-4-Vision" ∧
    self_model_info self = GPT_4_VISION ∧
    self_inference_type self = lit "openai" ∧
    ∃ c key, openai_key self = Some (c :: key) ∧
             client self = Some (OpenAI (Some (c :: key))))).
Proof.
  destruct (decide (k = lit "GPT-4-Vision")) as [->|Hk].
  - rewrite init_gpt. cbv zeta.
    destruct (OPENAI_AVAILABLE env); [|done]. cbn [negb].
    destruct (py_or b _) as [[|c key]|] eqn:Hkey; [done | | done].
    cbn [is_set negb]. intros [= <-]. cbn.
    split; [done|]. split; [done|]. right. repeat split. by exists c, key.
  - rewrite init_qwen by done.
    destruct (HF_HUB_AVAILABLE env); [|done]. cbn [negb]. cbv zeta.
    intros [= <-]. cbn. split; [done|]. split.
    + by destruct (get_model_info_cases k) as [[? _] | [_ ->]].
    + left. done.
Qed.

Lemma init_establishes_witness :
  let env := {| environ := [(lit "HF_TOKEN", lit "hf_x")];
                HF_HUB_AVAILABLE := true; OPENAI_AVAILABLE := false |} in
  let self := {| hf_token := Some (lit "hf_x"); openai_key := None;
                 model_key := lit "qwen"; self_model_info := QWEN3_VL_8B;
                 self_inference_type := lit "huggingface";
                 client := Some (InferenceClient
                                   (lit "Qwen/Qwen3-VL-8B-Instruct")
                                   (Some (lit "hf_x"))) |} in
  __init__ env None None (lit "qwen") = Return self ∧
  model_key self = lit "qwen" ∧
  self_model_info self = get_model_info (lit "qwen").
Proof.
  intros env self. split; [reflexivity|].
  destruct (init_establishes env None None (lit "qwen") self) as (H1 & H2 & _);
    [reflexivity|].
  split; [exact H1 | exact H2].
Defined.

(** [extract_text] on a constructed extractor always calls one of the two
    remote methods, the OpenAI one exactly for the key [GPT-4-Vision]; the
    [Unknown inference type] error is out of reach. *)
Theorem extract_text_dispatch {image : Type}
  (via_huggingface via_openai : VisionExtractor → image → outcome str)
  env a b k self img :
  __init__ env a b k = Return self →
  extract_text via_huggingface via_openai self img =
  if decide (k = lit "GPT-4-Vision") then via_openai self img
  else via_huggingface self img.
Proof.
  unfold extract_text. destruct (decide (k = lit "GPT-4-Vision")) as [->|Hk].
  - rewrite init_gpt. cbv zeta.
    destruct (OPENAI_AVAILABLE env); [|done]. cbn [negb].
    destruct (negb (is_set _)); [done|]. by intros [= <-].
  - rewrite init_qwen by done.
    destruct (HF_HUB_AVAILABLE env); [|done]. cbn [negb]. cbv zeta.
    by intros [= <-].
Qed.

Lemma extract_text_dispatch_witness :
  let env := {| environ := [(lit "OPENAI_API_KEY", lit "sk-x")];
                HF_HUB_AVAILABLE := false; OPENAI_AVAILABLE := true |} in
  let self := {| hf_token := None; openai_key := Some (lit "sk-x");
                 model_key := lit "GPT-4-Vision";
                 self_model_info := GPT_4_VISION;
                 self_inference_type := lit "openai";
                 client := Some (OpenAI (Some (lit "sk-x"))) |} in
  extract_text (λ _ (_ : unit), Return (lit "hf")) (λ _ _, Return (lit "oa"))
               self tt = Return (lit "oa").
Proof.
  intros env self.
  apply (extract_text_dispatch
           (λ _ (_ : unit), Return (lit "hf")) (λ _ _, Return (lit "oa"))
           env None None (lit "GPT-4-Vision") self tt).
  reflexivity.
Defined.

End vision_extractor_properties.

(** ** [parse_formatting_markers] against the document path *)

Section parse_formatting_markers_properties.
Import vision_extractor.

Lemma split_single (sep : N) (s : str) : sep ∉ s → split sep s = [s].
Proof.
  induction s as [|c s IH]; [done|]. intros [Hc Hs]%not_elem_of_cons. simpl.
  assert ((c =? sep) = false) as -> by (apply N.eqb_neq; by intros ->).
  by rewrite IH.
Qed.

Lemma headings_of_one_line raw :
  LF ∉ raw →
  headings (parse_formatting_markers raw) =
  headings (result (classify_line (strip raw)
                      {| result := no_markers; current_table := [];
                         in_table := false |})).
Proof.
  intros Hlf. unfold parse_formatting_markers. rewrite split_single by done.
  cbn [foldl]. cbv zeta. by destruct (truthy _).
Qed.

Lemma heading_marker_one (line : str) :
  startswith (lit "# ") line = true → startswith (lit "## ") line = false.
Proof. by intros [s ->]%startswith_true. Qed.

Lemma heading_marker_three (line : str) :
  startswith (lit "### ") line = true → startswith (lit "## ") line = false.
Proof. by intros [s ->]%startswith_true. Qed.

(** The two readers of the markup agree on which line is a heading and on
    its text, and differ in the level by one throughout: what
    [parse_formatting_markers] records at level 2, 3 or 1, the document
    gets at level 1, 2 or 0. *)
Theorem heading_levels_differ_by_one raw k t :
  LF ∉ raw →
  headings (parse_formatting_markers raw) = [(k, t)] ↔
  _process_content raw [] = Ok [Heading t (k - 1) None].
Proof.
  intros Hlf. rewrite headings_of_one_line by done.
  unfold _process_content. rewrite split_single by done.
  rewrite scan_lines_cons. cbv zeta. unfold classify_line.
  set (line := strip raw).
  destruct (truthy line) eqn:Htruthy; cbn [negb].
  2:{ destruct line; [|done]. cbn. split; [done | intros [=]]. }
  destruct (startswith (lit "## ") line && negb (startswith (lit "### ") line))
    eqn:H2.
  { cbn. split; [intros [= <- <-]; done | intros [= <- Hk]].
    by replace k with 2%Z by lia. }
  destruct (startswith (lit "### ") line) eqn:H3.
  { cbn. split; [intros [= <- <-]; done | intros [= <- Hk]].
    by replace k with 3%Z by lia. }
  destruct (startswith (lit "# ") line) eqn:H1.
  { rewrite (heading_marker_one line H1). cbn.
    split; [intros [= <- <-]; done | intros [= <- Hk]].
    by replace k with 1%Z by lia. }
  cbn [andb]. split.
  - intros Habs. exfalso. revert Habs.
    repeat match goal with
           | |- context [if ?b then _ else _] => destruct b
           | |- context [match ?o with Some _ => _ | None => _ end] => destruct o
           end; done.
  - intros Habs. exfalso. revert Habs. clear H1 H2 H3.
    destruct (_ || _); [done|].
    destruct (re_match_numbered line); [done|].
    destruct (startswith (lit "> ") line); [done|].
    destruct (contains _ line).
    { by destruct (re_search_diagram line). }
    destruct (_ && _); [|done].
    cbn [take_while drop_while fmap list_fmap].
    destruct (add_table_from_markdown_spec [line] (flush_list no_list []))
      as [[_ ->] | (n & _ & _ & _ & _ & ->)]; done.
Qed.

Lemma heading_levels_differ_by_one_witness :
  _process_content (lit "### Scope") [] = Ok [Heading (lit "Scope") 2 None].
Proof.
  apply (heading_levels_differ_by_one (lit "### Scope") 3 (lit "Scope")).
  - apply absent_check. reflexivity.
  - reflexivity.
Defined.

End parse_formatting_markers_properties.

(** ** The cached extractor of the application *)

Section get_extractor_properties.
Import vision_extractor app.

Lemma dict_get_set_eq {V} (d : list (str * V)) key value :
  dict_get (dict_set d key value) key = Some value.
Proof.
  induction d as [|[k v] d IH]; simpl.
  - by rewrite decide_True.
  - destruct (decide (k = key)) as [->|Hne]; simpl.
    + by rewrite decide_True.
    + by rewrite decide_False.
Qed.

Lemma dict_get_set_ne {V} (d : list (str * V)) key key' value :
  key ≠ key' → dict_get (dict_set d key' value) key = dict_get d key.
Proof.
  intros Hne. induction d as [|[k v] d IH]; simpl.
  - by rewrite decide_False.
  - destruct (decide (k = key')) as [->|Hk]; simpl.
    + by rewrite !decide_False.
    + by rewrite IH.
Qed.

Lemma error_key_differs (key : str) : key ≠ key ++ lit "_error".
Proof.
  intros H. apply (f_equal length) in H. rewrite length_app in H.
  simpl in H. lia.
Qed.

Lemma get_extractor_stores env secrets st k :
  ∃ v, dict_get (get_extractor env secrets st k).1 (lit "extractor_" ++ k) = Some v
       ∧ (get_extractor env secrets st k).2 = v.
Proof.
  unfold get_extractor. cbv zeta. cbn [fst snd].
  destruct (dict_get st (lit "extractor_" ++ k)) as [v|] eqn:Hget.
  - exists v. by rewrite Hget.
  - destruct (__init__ _ _ _ _) as [e|message].
    + exists (an_extractor e). by rewrite dict_get_set_eq.
    + exists none_value.
      rewrite dict_get_set_ne by apply error_key_differs.
      by rewrite dict_get_set_eq.
Qed.

(** Once a model has been asked for, the answer is fixed for the session:
    a later call for the same key returns the same value, extractor or
    [None], and leaves the session state as it is, whatever the
    environment and the secrets hold by then.  A failed construction is
    not tried again. *)
Theorem extractor_is_cached env1 secrets1 env2 secrets2 st k :
  get_extractor env2 secrets2 (get_extractor env1 secrets1 st k).1 k =
  get_extractor env1 secrets1 st k.
Proof.
  destruct (get_extractor_stores env1 secrets1 st k) as (v & Hget & Hv).
  destruct (get_extractor env1 secrets1 st k) as [st1 v1].
  cbn [fst snd] in *. subst v1. unfold get_extractor. cbv zeta.
  rewrite Hget. cbv iota. by rewrite Hget.
Qed.

(** Asking for [GPT-4-Vision] for the first time without a key, neither
    in the environment nor in the secrets, returns [None] and leaves the
    reason in the session state under the key with [_error] appended. *)
Theorem missing_openai_key_is_reported env secrets st :
  dict_get st (lit "extractor_GPT-4-Vision") = None →
  OPENAI_AVAILABLE env = true →
  is_set (dict_get (environ env) (lit "OPENAI_API_KEY")) = false →
  is_set (secrets_get secrets (lit "OPENAI_API_KEY")) = false →
  (get_extractor env secrets st (lit "GPT-4-Vision")).2 = none_value ∧
  dict_get (get_extractor env secrets st (lit "GPT-4-Vision")).1
           (lit "extractor_GPT-4-Vision_error") =
    Some (a_message
            (lit "OpenAI API key required. Set OPENAI_API_KEY in secrets.toml")).
Proof.
  intros Hnew Hlib Henv Hsecrets. unfold get_extractor. cbv zeta.
  change (lit "extractor_" ++ lit "GPT-4-Vision")
    with (lit "extractor_GPT-4-Vision").
  rewrite Hnew, init_gpt. cbv zeta. rewrite Hlib, Henv. cbn [negb].
  assert (Hkey : is_set (py_or (secrets_get secrets (lit "OPENAI_API_KEY"))
                           (dict_get (environ env) (lit "OPENAI_API_KEY")))
                 = false).
  { unfold py_or. destruct (secrets_get _ _) as [[|c s]|]; done. }
  rewrite Hkey. cbn [negb fst snd].
  change (lit "extractor_GPT-4-Vision" ++ lit "_error")
    with (lit "extractor_GPT-4-Vision_error").
  rewrite dict_get_set_eq. split; [|done].
  rewrite dict_get_set_ne by (by vm_compute).
  by rewrite dict_get_set_eq.
Qed.

Lemma missing_openai_key_is_reported_witness :
  (get_extractor {| environ := []; HF_HUB_AVAILABLE := true;
                    OPENAI_AVAILABLE := true |}
                 None [] (lit "GPT-4-Vision")).2 = none_value.
Proof.
  apply (missing_openai_key_is_reported
           {| environ := []; HF_HUB_AVAILABLE := true; OPENAI_AVAILABLE := true |}
           None []); reflexivity.
Defined.

End get_extractor_properties.

(** ** Inline markers in [parse_formatting_markers] *)

Section inline_markers.
Import vision_extractor.

Lemma findall_from_plain (d : N) (delim : str) : ∀ s rest,
  d ∉ s →
  findall_from (d :: delim) 0 (s ++ rest) = findall_from (d :: delim) 0 rest.
Proof.
  induction s as [|c s IH]; intros rest Hd; [done|].
  apply not_elem_of_cons in Hd as [Hc Hs].
  change ((c :: s) ++ rest) with (c :: (s ++ rest)). cbn [findall_from].
  rewrite startswith_head_ne by done. by apply IH.
Qed.

Lemma findall_from_skip delim : ∀ (m : str) rest,
  findall_from delim (length m) (m ++ rest) = findall_from delim 0 rest.
Proof.
  induction m as [|c m IH]; intros rest; [done|].
  cbn [app length findall_from]. apply IH.
Qed.

Lemma findall_from_nil delim : findall_from delim 0 [] = [].
Proof. done. Qed.

Lemma startswith_app_refl (x rest : str) : startswith x (x ++ rest) = true.
Proof. induction x as [|y x IH]; [done|]. simpl. by rewrite N.eqb_refl. Qed.

Lemma findall_span (d : N) (delim pre inner post : str) :
  d ∉ pre → d ∉ inner → LF ∉ inner → d ∉ post →
  findall (d :: delim) (pre ++ (d :: delim) ++ inner ++ (d :: delim) ++ post)
  = [inner].
Proof.
  intros Hpre Hinner Hlf Hpost. unfold findall.
  rewrite findall_from_plain by done.
  change ((d :: delim) ++ inner ++ (d :: delim) ++ post)
    with (d :: (delim ++ inner ++ (d :: delim) ++ post)).
  cbn [findall_from].
  change (d :: delim ++ inner ++ (d :: delim) ++ post)
    with ((d :: delim) ++ inner ++ (d :: delim) ++ post).
  rewrite startswith_app_refl, drop_app_length.
  rewrite lazy_until_found by done. f_equal.
  replace (length (d :: delim) + length inner + length (d :: delim) - 1)%nat
    with (length (delim ++ inner ++ (d :: delim))).
  2:{ rewrite !length_app. simpl. lia. }
  replace (delim ++ inner ++ (d :: delim) ++ post)
    with ((delim ++ inner ++ (d :: delim)) ++ post)
    by (by rewrite <- !(assoc_L (++))).
  rewrite findall_from_skip.
  rewrite <- (app_nil_r post). by rewrite findall_from_plain.
Qed.

Lemma classify_line_keeps_inline stripped st :
  bold_text (result (classify_line stripped st)) = bold_text (result st) ∧
  formulas (result (classify_line stripped st)) = formulas (result st).
Proof.
  unfold classify_line.
  repeat match goal with
         | |- context [if ?b then _ else _] => destruct b
         | |- context [match ?o with Some _ => _ | None => _ end] => destruct o
         end; done.
Qed.

(** The bold text [parse_formatting_markers] reports for a one-line text
    with one bold span in text free of asterisks is the text between the
    markers, the text of the bold run the formatter makes of that line. *)
Theorem bold_text_of_a_span raw pre inner post :
  LF ∉ raw →
  strip raw = pre ++ lit "**" ++ inner ++ lit "**" ++ post →
  STAR ∉ pre → STAR ∉ inner → STAR ∉ post →
  bold_text (parse_formatting_markers raw) = [inner].
Proof.
  intros Hlf Hline Hpre Hinner Hpost.
  assert (Hlf' : LF ∉ inner).
  { intros H. apply Hlf, elem_of_strip_inv. rewrite Hline.
    rewrite !elem_of_app. right. right. by left. }
  unfold parse_formatting_markers. rewrite split_single by done.
  cbn [foldl]. unfold parse_line. cbv zeta.
  destruct (classify_line_keeps_inline (strip raw)
              {| result := no_markers; current_table := []; in_table := false |})
    as [Hb _].
  assert (Hfind : findall (lit "**") (strip raw) = [inner]).
  { rewrite Hline. change (lit "**") with [STAR; STAR].
    by apply findall_span. }
  destruct (truthy _);
    cbn [bold_text result with_result extend_inline append_table];
    by rewrite Hb, Hfind.
Qed.

Lemma bold_text_of_a_span_witness :
  bold_text (parse_formatting_markers (lit "- take **two** daily")) =
  [lit "two"].
Proof.
  apply (bold_text_of_a_span (lit "- take **two** daily")
           (lit "- take ") (lit "two") (lit " daily"));
    first [reflexivity | apply absent_check; reflexivity].
Defined.

End inline_markers.

(** ** Failure freedom and statelessness *)

(** *** Where the text of the blocks comes from *)

Section texts.
Variable Q : N → Prop.
Hypothesis Q_quote : Forall Q QUOTE_BAR_SPACE.
Hypothesis Q_label : Forall Q DIAGRAM_LABEL.

Lemma Forall_drop_while (p : N → bool) (s : str) :
  Forall Q s → Forall Q (drop_while p s).
Proof.
  induction 1 as [|c s Hc Hs IH]; simpl; [done|].
  destruct (p c); [done | by constructor].
Qed.

Lemma Forall_take_while (p : N → bool) (s : str) :
  Forall Q s → Forall Q (take_while p s).
Proof.
  induction 1 as [|c s Hc Hs IH]; simpl; [done|].
  destruct (p c); [by constructor | done].
Qed.

Lemma Forall_strip (s : str) : Forall Q s → Forall Q (strip s).
Proof.
  intros H. unfold strip, rstrip, lstrip.
  apply Forall_reverse, Forall_drop_while, Forall_reverse, Forall_drop_while, H.
Qed.

Lemma Forall_split sep (s : str) : Forall Q s → Forall (Forall Q) (split sep s).
Proof.
  induction 1 as [|c s Hc Hs IH]; simpl; [by repeat constructor|].
  destruct (c =? sep); [by constructor|].
  destruct (split sep s) as [|field fields]; [by repeat constructor|].
  inversion IH; subst. constructor; [by constructor | done].
Qed.

Lemma Forall_row_cells line : Forall Q line → Forall (Forall Q) (row_cells line).
Proof.
  intros H. unfold row_cells. apply Forall_fmap.
  pose proof (Forall_split PIPE line H) as Hs.
  induction Hs as [|field fields Hf _ IH]; [done|].
  rewrite filter_cons. case_decide; [|done].
  constructor; [|done]. by apply Forall_strip.
Qed.

Lemma Forall_parse_rows table_lines :
  Forall (Forall Q) table_lines →
  Forall (Forall (Forall Q)) (parse_rows table_lines).
Proof.
  induction 1 as [|line table_lines Hl _ IH]; simpl; [done|].
  destruct (re_match_separator line); [done|].
  destruct (truthy (row_cells line)); [|done].
  constructor; [by apply Forall_row_cells | done].
Qed.

Lemma grid_row_texts ncols i row :
  text <$> concat (grid_row ncols i row) = row.
Proof.
  unfold grid_row. rewrite concat_app, fmap_app.
  assert (Hnone : ∀ k, concat (replicate k ([] : list Run)) = []).
  { induction k as [|k IH]; [done|]. done. }
  rewrite Hnone, app_nil_r.
  induction row as [|c row IH]; [done|]. simpl. by f_equal.
Qed.

Lemma grid_texts ncols rows : ∀ i,
  Forall (Forall (Forall Q)) rows →
  Forall (Forall Q) (text <$> concat (concat (grid_from ncols i rows))).
Proof.
  induction rows as [|row rows IH]; intros i Hrows; [constructor|].
  inversion Hrows; subst. cbn [grid_from concat].
  rewrite concat_app, fmap_app, grid_row_texts.
  apply Forall_app. split; [done | by apply IH].
Qed.

Lemma texts_in_formatted p fragment :
  Forall (Forall Q) (text <$> runs p) → Forall Q fragment →
  texts_in Q (Para (_add_formatted_text p fragment)).
Proof.
  intros Hp Hf. unfold texts_in, _add_formatted_text.
  cbn [block_texts runs with_runs]. rewrite fmap_app.
  apply Forall_app. split; [done|]. apply (format_texts Q fragment Hf).
Qed.

Lemma texts_in_heading t level align :
  Forall Q t → texts_in Q (Heading t level align).
Proof. intros H. unfold texts_in. simpl. by constructor. Qed.

Lemma texts_in_runs p :
  Forall (Forall Q) (text <$> runs p) → texts_in Q (Para p).
Proof. done. Qed.

Lemma texts_in_flush l doc :
  Forall (Forall Q) (list_items l) → Forall (texts_in Q) doc →
  Forall (texts_in Q) (flush_list l doc).
Proof.
  intros Hl Hd. rewrite flush_list_explicit. apply Forall_app.
  split; [done|]. apply Forall_fmap. revert Hl. apply List.Forall_impl.
  intros item Hi. by apply texts_in_formatted.
Qed.

Lemma flush_locals_items l : list_items (flush_locals l) = [].
Proof. by rewrite flush_locals_explicit. Qed.

Lemma Forall_numbered_rest line rest :
  Forall Q line → numbered_rest line = Some rest → Forall Q rest.
Proof.
  intros H. unfold numbered_rest.
  pose proof (Forall_drop_while isdecimal line H) as Hd.
  destruct (take_while isdecimal line); [done|].
  destruct (drop_while isdecimal line) as [|d [|w rest']]; [done| |].
  - by repeat case_match.
  - inversion Hd as [|? ? _ Hd']; subst. inversion Hd'; subst.
    repeat case_match; try done. by intros [= <-].
Qed.

Lemma Forall_re_sub_numbered line :
  Forall Q line → Forall Q (re_sub_numbered line).
Proof.
  intros H. unfold re_sub_numbered.
  destruct (numbered_rest line) as [rest|] eqn:E; [|done].
  by apply (Forall_numbered_rest line).
Qed.

Lemma Forall_match_diagram s g :
  Forall Q s → match_diagram s = Some g → Forall Q g.
Proof.
  intros H. unfold match_diagram. destruct (startswith _ s); [|done].
  cbv zeta.
  assert (Hg : Forall Q (take_while (λ c, negb (c =? RBRACKET) && negb (c =? LF))
                           (drop_while isspace (drop 9 s))))
    by apply Forall_take_while, Forall_drop_while, Forall_drop, H.
  repeat case_match; try done. by intros [= <-].
Qed.

Lemma Forall_re_search_diagram s g :
  Forall Q s → re_search_diagram s = Some g → Forall Q g.
Proof.
  induction 1 as [|c s Hc Hs IH]; cbn [re_search_diagram].
  - destruct (match_diagram []) eqn:E; [|done]. intros [= <-].
    by apply (Forall_match_diagram []).
  - destruct (match_diagram (c :: s)) eqn:E; [|done].
    intros [= <-]. apply (Forall_match_diagram (c :: s)); [by constructor|done].
Qed.

Lemma texts_in_table table_lines doc doc' :
  Forall (Forall Q) table_lines → Forall (texts_in Q) doc →
  _add_table_from_markdown table_lines doc = Ok doc' →
  Forall (texts_in Q) doc'.
Proof.
  intros Hl Hd.
  destruct (add_table_from_markdown_spec table_lines doc)
    as [[_ ->] | (n & _ & _ & _ & _ & ->)]; intros [= <-]; [done|].
  apply Forall_app. split; [done|].
  constructor; [|constructor; [|done]].
  - unfold texts_in. cbn [block_texts cells].
    by apply grid_texts, Forall_parse_rows.
  - unfold texts_in. simpl. constructor.
Qed.

(** Every text the scan hands to python-docx is made of characters of the
    lines and of the two literals. *)
Lemma scan_lines_texts : ∀ n lines, (length lines ≤ n)%nat → ∀ l doc doc',
  Forall (Forall Q) lines → Forall (Forall Q) (list_items l) →
  Forall (texts_in Q) doc →
  scan_lines lines l doc = Ok doc' → Forall (texts_in Q) doc'.
Proof.
  induction n as [|n IH]; intros lines Hlen l doc doc' Hlines Hl Hdoc.
  - destruct lines; [|simpl in Hlen; lia].
    simpl. intros [= <-]. by apply texts_in_flush.
  - destruct lines as [|raw rest].
    { simpl. intros [= <-]. by apply texts_in_flush. }
    simpl in Hlen. assert (Hn : (length rest ≤ n)%nat) by lia.
    inversion Hlines as [|? ? Hraw Hrest]; subst.
    assert (Hline : Forall Q (strip raw)) by by apply Forall_strip.
    assert (Hflush : Forall (texts_in Q) (flush_list l doc))
      by by apply texts_in_flush.
    assert (Hgo : ∀ tail : list Block, Forall (texts_in Q) tail →
              scan_lines rest (flush_locals l) (flush_list l doc ++ tail) = Ok doc' →
              Forall (texts_in Q) doc').
    { intros tail Htail. apply (IH rest Hn); [done| |].
      - rewrite flush_locals_items. constructor.
      - apply Forall_app. by split. }
    assert (Hitem : ∀ lt item, Forall Q item →
              scan_lines rest (append_item lt item l) doc = Ok doc' →
              Forall (texts_in Q) doc').
    { intros lt item Hitem. apply (IH rest Hn); [done| |done].
      cbn [append_item list_items]. apply Forall_app.
      split; [done | by constructor]. }
    rewrite scan_lines_cons. cbv zeta.
    destruct (negb (truthy (strip raw))).
    { apply (IH rest Hn); [done| |done].
      rewrite flush_locals_items. constructor. }
    destruct (startswith (lit "## ") (strip raw) && _).
    { apply Hgo. constructor; [|done]. by apply texts_in_heading, Forall_drop. }
    destruct (startswith (lit "### ") (strip raw)).
    { apply Hgo. constructor; [|done]. by apply texts_in_heading, Forall_drop. }
    destruct (startswith (lit "# ") (strip raw) && _).
    { apply Hgo. constructor; [|done]. by apply texts_in_heading, Forall_drop. }
    destruct (_ || _).
    { apply Hitem. by apply Forall_drop. }
    destruct (re_match_numbered _).
    { apply Hitem. by apply Forall_re_sub_numbered. }
    destruct (startswith (lit "> ") _).
    { apply Hgo. constructor; [|done]. apply texts_in_formatted.
      - simpl. by constructor.
      - by apply Forall_drop. }
    destruct (contains _ _).
    { destruct (re_search_diagram _) as [group1|] eqn:Hsearch.
      - apply Hgo. apply (Forall_re_search_diagram _ _ Hline) in Hsearch.
        constructor; [|constructor; [|done]]; apply texts_in_runs; simpl;
          by constructor.
      - apply (IH rest Hn); [done| |done].
        rewrite flush_locals_items. constructor. }
    destruct (_ && _).
    2:{ apply Hgo. constructor; [|done]. apply texts_in_formatted; [|done].
        constructor. }
    destruct (_add_table_from_markdown _ _) as [doc1|e] eqn:Htbl; [|done].
    cbn [bind]. apply IH.
    + pose proof (drop_while_length has_pipe rest). lia.
    + clear -Hrest. induction Hrest as [|r rest Hr Hrest IHr]; simpl; [done|].
      destruct (has_pipe r); [done | by constructor].
    + rewrite flush_locals_items. constructor.
    + apply (texts_in_table _ _ _) in Htbl; [done| |done].
      constructor; [done|]. apply Forall_fmap.
      clear -Hrest. induction Hrest as [|r rest Hr _ IHr]; simpl; [done|].
      destruct (has_pipe r); [|done]. constructor; [|done].
      by apply Forall_strip.
Qed.

End texts.

(** *** What python-docx accepts *)

Lemma accepted_texts_in b :
  accepted b = true ↔ texts_in (λ c, xml_char c = true) b.
Proof.
  unfold accepted, texts_in. rewrite forallb_Forall. split.
  - apply List.Forall_impl. intros t. apply xml_compatible_Forall.
  - apply List.Forall_impl. intros t. apply xml_compatible_Forall.
Qed.

Lemma Forall_xml_split t :
  xml_compatible t = true →
  Forall (Forall (λ c, xml_char c = true)) (split LF t).
Proof. intros H. by apply Forall_split, xml_compatible_Forall. Qed.

(** The blocks asked for a text python-docx can write are all accepted. *)
Lemma process_content_accepted t requested :
  xml_compatible t = true → _process_content t [] = Ok requested →
  forallb accepted requested = true.
Proof.
  intros Ht Hreq. apply forallb_Forall.
  assert (H : Forall (texts_in (λ c, xml_char c = true)) requested).
  { apply (scan_lines_texts (λ c, xml_char c = true))
      with (n := length (split LF t)) (lines := split LF t) (l := no_list)
           (doc := []); try done.
    - by apply xml_compatible_Forall.
    - by apply xml_compatible_Forall.
    - by apply Forall_xml_split. }
  revert H. apply List.Forall_impl. intros b. apply accepted_texts_in.
Qed.

(** The claim as written fails: a text with a NUL character (or any other
    control character XML has no place for, such as a form feed inside a
    line) reaches [paragraph.add_run], and python-docx raises
    [ValueError]: from the formatter, from [_process_content], and so from
    [generate_docx]. *)
Lemma C8_control_character_raises :
  Docx._add_formatted_text (add_paragraph Normal) (lit "a" ++ [0] ++ lit "b")
    = Raise ValueError ∧
  Docx._process_content {| self_document := Some [] |} (lit "a" ++ [0] ++ lit "b")
    = Raise ValueError ∧
  Docx._process_content {| self_document := Some [] |}
      (lit "## Page 1" ++ [LF] ++ lit "end" ++ [12] ++ lit "start")
    = Raise ValueError ∧
  Docx.generate_docx (lit "a" ++ [0] ++ lit "b") (lit "Extracted Document")
    = Raise ValueError.
Proof. by_evaluation. Qed.

(** C8, as the code has it: the generator's own partial operations
    ([max] over the row lengths, the two cell indexings, the regex
    matches, the list flush) are never reached where they are undefined,
    for any text, any lines, any state of the two locals and any table
    lines, so the calls on python-docx are issued for every text; when
    every character of the text is one python-docx can write, they are
    all carried out: [_process_content] returns on every generator that
    has a document, with blocks added at the end, and
    [_add_formatted_text] returns on every paragraph, with runs added at
    the end.  The empty text adds nothing, on any generator. *)
Theorem C8_writable_text_never_raises t :
  (∃ requested, ∀ doc, _process_content t doc = Ok (doc ++ requested)) ∧
  (∀ lines l, ∃ requested, ∀ doc,
     scan_lines lines l doc = Ok (doc ++ requested)) ∧
  (∀ table_lines, ∃ requested, ∀ doc,
     _add_table_from_markdown table_lines doc = Ok (doc ++ requested)) ∧
  (xml_compatible t = true →
   (∃ blocks, ∀ self doc, self_document self = Some doc →
      Docx._process_content self t
      = Ok {| self_document := Some (doc ++ blocks) |}) ∧
   (∃ rs, ∀ p,
      Docx._add_formatted_text p t = Ok (with_runs p (runs p ++ rs)))) ∧
  (∀ self, Docx._process_content self [] = Ok self).
Proof.
  split; [apply scan_requests|].
  split; [intros lines l; apply (scan_lines_appends _ lines (le_n _) l)|].
  split; [apply add_table_appends|].
  split; [|done].
  intros Ht. split.
  - destruct (scan_requests t) as [requested Hreq].
    exists (read_back_block <$> requested). intros self doc Hdoc.
    rewrite (process_content_stored self doc) by done.
    rewrite (Hreq []). cbn [bind app]. unfold carry_out.
    by rewrite (process_content_accepted t requested Ht (Hreq [])).
  - exists (read_back_run <$> format t). intros p.
    unfold Docx._add_formatted_text. by rewrite format_accepted.
Qed.

Lemma C8_writable_text_never_raises_witness :
  let t := lit "# T" ++ [LF] ++ lit "- **a**" ++ [LF] ++ lit "| x | y |" ++ [13] in
  (∃ blocks, ∀ self doc, self_document self = Some doc →
     Docx._process_content self t
     = Ok {| self_document := Some (doc ++ blocks) |}) ∧
  (∃ rs, ∀ p,
     Docx._add_formatted_text p t = Ok (with_runs p (runs p ++ rs))).
Proof.
  intros t.
  apply (C8_writable_text_never_raises t). reflexivity.
Defined.

(** *** Calls do not depend on one another *)










